(** * typeddatabase: the PostgreSQL data-access layer

    A shallow embedding of [PostgreSqlDb] (the identifier check [checkName],
    the fragment builder [splitUp] and the statement executor built on them)
    together with the properties its specification states about them.

    JavaScript strings are modelled as [string]; every character the
    identifier pattern accepts is ASCII, so a character outside the pattern is
    rejected whatever its encoding.  Array indices, array lengths and the
    placeholder offset are natural numbers. *)

From Stdlib Require Import List String Ascii Bool Arith ZArith Lia.
From Stdlib Require Import DecimalString DecimalNat FinFun.
Import ListNotations.

Local Open Scope list_scope.
Local Open Scope string_scope.

(** ** JavaScript values and exceptions *)

(** A [Date] object holds a time value: milliseconds since the epoch, or
    [None] for NaN (an "Invalid Date"). *)
Record Date : Type := mkDate { timeValue : option Z }.

(** The values a field mapping can hold ([Row] in db.ts), and [undefined],
    which [any] lets through. *)
Inductive value : Type :=
| VNull
| VUndefined
| VBool (b : bool)
| VNumber (n : Z)
| VString (s : string)
| VDate (d : Date).

(** What can be thrown: [new Error(message)], the runtime's [RangeError], and
    whatever the database driver rejects with. *)
Inductive exn : Type :=
| Error (message : string)
| RangeError (message : string)
| DriverError (code : string) (message : string).

(** A computation that returns or throws. *)
Definition Completion (A : Type) : Type := (exn + A)%type.

Definition ok {A} (a : A) : Completion A := inr a.
Definition throw {A} (e : exn) : Completion A := inl e.

Definition cbind {A B} (m : Completion A) (k : A -> Completion B) :
  Completion B :=
  match m with
  | inl e => inl e
  | inr a => k a
  end.

Declare Scope completion_scope.
Delimit Scope completion_scope with completion.
Notation "x <- m ;; k" := (cbind m (fun x => k))
  (at level 61, m at next level, right associativity) : completion_scope.

(** ** Regular expressions, as far as the source uses them *)

Module RegExp.

Inductive re : Type :=
| Void                                 (* matches nothing *)
| Eps                                  (* the empty string *)
| Class (p : ascii -> bool)            (* one character of a class *)
| Cat (r s : re)                       (* r s *)
| Alt (r s : re)                       (* r|s *)
| Upto (n : nat) (r : re).             (* r{0,n} *)

Fixpoint nullable (r : re) : bool :=
  match r with
  | Void => false
  | Eps => true
  | Class _ => false
  | Cat r s => nullable r && nullable s
  | Alt r s => nullable r || nullable s
  | Upto _ _ => true
  end.

Fixpoint deriv (c : ascii) (r : re) : re :=
  match r with
  | Void => Void
  | Eps => Void
  | Class p => if p c then Eps else Void
  | Cat r s =>
      if nullable r then Alt (Cat (deriv c r) s) (deriv c s)
      else Cat (deriv c r) s
  | Alt r s => Alt (deriv c r) (deriv c s)
  | Upto 0 _ => Void
  | Upto (S n) r => Cat (deriv c r) (Upto n r)
  end.

(** [/^r$/.test(s)]: the whole of [s] matches [r]. *)
Fixpoint test (r : re) (s : string) : bool :=
  match s with
  | EmptyString => nullable r
  | String c s' => test (deriv c r) s'
  end.

Definition in_range (lo hi c : ascii) : bool :=
  ((nat_of_ascii lo <=? nat_of_ascii c)%nat
   && (nat_of_ascii c <=? nat_of_ascii hi)%nat)%bool.

End RegExp.

(** ** checkName *)

(** [[a-zA-Z_]] *)
Definition name_start (c : ascii) : bool :=
  RegExp.in_range "a" "z" c || RegExp.in_range "A" "Z" c || Ascii.eqb c "_".

(** [\d] *)
Definition digit (c : ascii) : bool := RegExp.in_range "0" "9" c.

(** [[a-zA-Z_\d]] *)
Definition name_char (c : ascii) : bool :=
  RegExp.in_range "a" "z" c || RegExp.in_range "A" "Z" c || Ascii.eqb c "_"
  || digit c.

(** [/^[a-zA-Z_][a-zA-Z_\d]{0,30}$/] *)
Definition name_pattern : RegExp.re :=
  RegExp.Cat (RegExp.Class name_start) (RegExp.Upto 30 (RegExp.Class name_char)).

Definition checkName (name : string) : Completion string :=
  if RegExp.test name_pattern name then ok name
  else throw (Error ("illegal name: " ++ name)).

(** The error the specification calls IllegalIdentifier. *)
Definition IllegalIdentifier (name : string) : exn :=
  Error ("illegal name: " ++ name).

(** ** Strings the builder needs *)

(** The double-quote character and a name between double quotes. *)
Definition dquote : string := String "034"%char EmptyString.

Definition quoted (name : string) : string := dquote ++ name ++ dquote.

(** [Array.prototype.join] on an array of strings. *)
Definition join (sep : string) (xs : list string) : string :=
  String.concat sep xs.

(** An array of strings inside a template literal: [Array.prototype.toString],
    which joins with a comma and nothing else. *)
Definition Array_toString (xs : list string) : string := join "," xs.

(** A non-negative integer inside a template literal: its decimal digits. *)
Definition Number_toString (n : nat) : string :=
  NilEmpty.string_of_uint (Nat.to_uint n).

(** ** splitUp *)

Record SplitUpResult : Type := mkSplitUpResult {
  columns : list string;
  variables : list string;
  params : list value;
  assignments : list string;
  whereSection : string
}.

(** [Array.prototype.push]: the element goes to the end. *)
Definition push {A} (xs : list A) (x : A) : list A := (xs ++ [x])%list.

(** [value === null] *)
Definition is_null (v : value) : bool :=
  match v with
  | VNull => true
  | _ => false
  end.

(** [Array.prototype.reduce] with a callback that may throw. *)
Fixpoint reduce {A B} (f : A -> B -> Completion A) (xs : list B) (acc : A) :
  Completion A :=
  match xs with
  | [] => ok acc
  | x :: xs' => (acc' <- f acc x ;; reduce f xs' acc')%completion
  end.

(** The callback of the [reduce] in [splitUp]. *)
Definition splitUp_callback (isWhere : bool) (offset : nat)
  (result : SplitUpResult) (entry : string * value) : Completion SplitUpResult :=
  let '(key, value) := entry in
  (name <- checkName key ;;
   let column := quoted name in
   if isWhere && is_null value then
     ok {| columns := columns result;
           variables := variables result;
           params := params result;
           assignments := push (assignments result) (column ++ " is null");
           whereSection := whereSection result |}
   else
     let variable :=
       "$" ++ Number_toString (offset + List.length (variables result) + 1) in
     ok {| columns := push (columns result) column;
           variables := push (variables result) variable;
           params := push (params result) value;
           assignments :=
             push (assignments result) (column ++ " = " ++ variable);
           whereSection := whereSection result |})%completion.

Definition splitUp_init : SplitUpResult :=
  {| columns := []; variables := []; params := []; assignments := [];
     whereSection := EmptyString |}.

(** [fields] is the mapping as [Object.entries] lists it. *)
Definition splitUp (fields : list (string * value)) (isWhere : bool)
  (offset : nat) : Completion SplitUpResult :=
  (result <- reduce (splitUp_callback isWhere offset) fields splitUp_init ;;
   if isWhere then
     ok {| columns := columns result;
           variables := variables result;
           params := params result;
           assignments := assignments result;
           whereSection :=
             match assignments result with
             | [] => EmptyString
             | _ :: _ => " where " ++ join " and " (assignments result)
             end |}
   else ok result)%completion.

(** ** Date.prototype.toISOString

    The runtime's serialization of a [Date], after ECMA-262: a [RangeError]
    when the time value is not finite, else [YYYY-MM-DDTHH:mm:ss.sssZ], the
    year with four digits between 0 and 9999 and with a sign and six digits
    outside.  No [Date] holds a time value beyond [maxTimeValue] (the
    constructor makes it NaN), so such a value counts as not finite. *)

Local Open Scope Z_scope.

Definition msPerDay : Z := 86400000.

(** The largest magnitude a time value can have. *)
Definition maxTimeValue : Z := 8640000000000000.

(** Year, month and day of month of the day [day] days after 1970-01-01. *)
Definition civil_from_days (day : Z) : Z * Z * Z :=
  let z := day + 719468 in
  let era := z / 146097 in
  let doe := z mod 146097 in
  let yoe := (doe - doe / 1460 + doe / 36524 - doe / 146096) / 365 in
  let doy := doe - (365 * yoe + yoe / 4 - yoe / 100) in
  let mp := (5 * doy + 2) / 153 in
  let d := doy - (153 * mp + 2) / 5 + 1 in
  let m := if mp <? 10 then mp + 3 else mp - 9 in
  let y := yoe + era * 400 + (if m <=? 2 then 1 else 0) in
  (y, m, d).

Fixpoint zeros (n : nat) : string :=
  match n with
  | O => EmptyString
  | S n' => String "0" (zeros n')
  end.

(** The decimal digits of [n], padded with zeros on the left up to [width]. *)
Definition padded (width : nat) (n : Z) : string :=
  let digits := Number_toString (Z.to_nat n) in
  (zeros (width - String.length digits) ++ digits)%string.

Definition iso_year (y : Z) : string :=
  if (0 <=? y) && (y <=? 9999) then padded 4 y
  else ((if y <? 0 then "-" else "+")%Z ++ padded 6 (Z.abs y))%string.

Definition toISOString (d : Date) : Completion string :=
  match timeValue d with
  | None => throw (RangeError "Invalid time value")
  | Some t =>
      if Z.abs t <=? maxTimeValue then
        let '(y, m, dd) := civil_from_days (t / msPerDay) in
        let ms := t mod msPerDay in
        ok (iso_year y ++ "-" ++ padded 2 m ++ "-" ++ padded 2 dd
            ++ "T" ++ padded 2 (ms / 3600000)
            ++ ":" ++ padded 2 (ms / 60000 mod 60)
            ++ ":" ++ padded 2 (ms / 1000 mod 60)
            ++ "." ++ padded 3 (ms mod 1000) ++ "Z")%string
      else throw (RangeError "Invalid time value")
  end.

Local Close Scope Z_scope.

(** ** The statement executor *)

Definition Row : Type := list (string * value).

(** What the client resolves with; only [rows] is read. *)
Record QueryResult : Type := mkQueryResult { rows : list Row }.

(** What the layer does to the outside, in the order it does it: a call of
    the client's [query] with its outcome, and a [console.error]. *)
Inductive event : Type :=
| ClientQuery (sql : string) (params : option (list value))
    (outcome : Completion QueryResult)
| ConsoleError (e : exn).

(** An identifier field: [IdBase = string | number]. *)
Inductive Id : Type :=
| IdString (s : string)
| IdNumber (n : Z).

Definition value_of_id (id : Id) : value :=
  match id with
  | IdString s => VString s
  | IdNumber n => VNumber n
  end.

(** [Array.prototype.map] with a callback that may throw. *)
Fixpoint Array_map {A B} (f : A -> Completion B) (xs : list A) :
  Completion (list B) :=
  match xs with
  | [] => ok []
  | x :: xs' =>
      (y <- f x ;; ys <- Array_map f xs' ;; ok (y :: ys))%completion
  end.

(** The callback of the [map] in [query]. *)
Definition serialize_param (param : value) : Completion value :=
  match param with
  | VDate d => (s <- toISOString d ;; ok (VString s))%completion
  | _ => ok param
  end.

Declare Scope async_scope.
Delimit Scope async_scope with async.

Section Executor.

(** The [pg] client with the database behind it: a state, and what its
    [query] answers to a statement in a state. *)
Variable Client : Type.
Variable client_query :
  Client -> string -> option (list value) -> Completion QueryResult * Client.

(** An asynchronous operation awaited to its end: it resolves or rejects,
    leaves the client in a new state, and has done a list of things. *)
Definition Async (A : Type) : Type :=
  Client -> Completion A * Client * list event.

Definition resolve {A} (a : A) : Async A := fun c => (ok a, c, []).

Definition reject {A} (e : exn) : Async A := fun c => (throw e, c, []).

(** [await m] followed by [k]. *)
Definition await {A B} (m : Async A) (k : A -> Async B) : Async B :=
  fun c =>
    match m c with
    | (inl e, c', evs) => (inl e, c', evs)
    | (inr a, c', evs) =>
        let '(r, c'', evs') := k a c' in (r, c'', (evs ++ evs')%list)
    end.

(** A synchronous computation inside an [async] function: a throw rejects
    the promise. *)
Definition sync {A} (m : Completion A) : Async A :=
  fun c => (m, c, []).

(** [try { body } catch (e) { handler e }] *)
Definition try_catch {A} (body : Async A) (handler : exn -> Async A) :
  Async A :=
  fun c =>
    match body c with
    | (inl e, c', evs) =>
        let '(r, c'', evs') := handler e c' in (r, c'', (evs ++ evs')%list)
    | (inr a, c', evs) => (inr a, c', evs)
    end.

Definition console_error (e : exn) : Async unit :=
  fun c => (ok tt, c, [ConsoleError e]).

(** [this.client.query(sql, params)] *)
Definition client_call (sql : string) (params : option (list value)) :
  Async QueryResult :=
  fun c =>
    let '(outcome, c') := client_query c sql params in
    (outcome, c', [ClientQuery sql params outcome]).

Notation "x <- m ;; k" := (await m (fun x => k))
  (at level 61, m at next level, right associativity) : async_scope.
Notation "' pat <- m ;; k" :=
  (await m (fun x => match x with pat => k end))
  (at level 61, pat pattern, m at next level, right associativity)
  : async_scope.

Local Open Scope async_scope.

(** [for (const x of xs) { await body x }] *)
Fixpoint for_of {A B} (xs : list A) (body : A -> Async B) : Async unit :=
  match xs with
  | [] => resolve tt
  | x :: xs' => _ <- body x ;; for_of xs' body
  end.

Definition query (sql : string) (params : option (list value)) :
  Async QueryResult :=
  newParams <- sync (match params with
                     | Some ps =>
                         (ps' <- Array_map serialize_param ps ;;
                          ok (Some ps'))%completion
                     | None => ok None
                     end) ;;
  client_call sql newParams.

Definition query2 (sql : string) (params : list value) : Async (list Row) :=
  try_catch
    (queryResult <- query sql (Some params) ;;
     resolve (rows queryResult))
    (fun e => _ <- console_error e ;; reject e).

Definition create (table : string) (fields : list (string * value)) :
  Async (list Row) :=
  r <- sync (splitUp fields false 0) ;;
  name <- sync (checkName table) ;;
  let sql := "insert into " ++ quoted name
             ++ " (" ++ Array_toString (columns r)
             ++ ") values (" ++ Array_toString (variables r) ++ ")" in
  query2 sql (params r).

Definition upsert (table : string) (fields : list (string * value))
  (unique : list string) : Async (list Row) :=
  r <- sync (splitUp fields false 0) ;;
  name <- sync (checkName table) ;;
  let sql := "insert into " ++ quoted name
             ++ " (" ++ Array_toString (columns r)
             ++ ") values (" ++ Array_toString (variables r)
             ++ ") on conflict (" ++ Array_toString unique
             ++ ") do update set " ++ Array_toString (assignments r) in
  query2 sql (params r).

Definition update (table : string) (fields whereConditions : list (string * value)) :
  Async (list Row) :=
  r <- sync (splitUp fields false 0) ;;
  w <- sync (splitUp whereConditions true (List.length (params r))) ;;
  name <- sync (checkName table) ;;
  let sql := "update " ++ quoted name
             ++ " set " ++ Array_toString (assignments r)
             ++ whereSection w in
  query2 sql (params r ++ params w)%list.

Definition select (table : string) (whereConditions : list (string * value)) :
  Async (list Row) :=
  w <- sync (splitUp whereConditions true 0) ;;
  name <- sync (checkName table) ;;
  let sql := "select * from " ++ quoted name ++ whereSection w in
  rows <- query2 sql (params w) ;;
  resolve rows.

Definition delete (table : string) (whereConditions : list (string * value)) :
  Async (list Row) :=
  w <- sync (splitUp whereConditions true 0) ;;
  name <- sync (checkName table) ;;
  let sql := "delete from " ++ quoted name ++ whereSection w in
  query2 sql (params w).

Definition writeRows (tableName : string) (rows : list Row)
  (unique : list string) : Async unit :=
  _ <- query "begin" None ;;
  _ <- query "SET CONSTRAINTS fk_parent DEFERRED" None ;;
  _ <- for_of rows (fun row => upsert tableName row unique) ;;
  _ <- query "commit" None ;;
  resolve tt.

Definition deleteRows (tableName : string) (ids : list Id) : Async unit :=
  _ <- query "begin" None ;;
  _ <- query "SET CONSTRAINTS fk_parent DEFERRED" None ;;
  _ <- for_of ids (fun id => delete tableName [("id", value_of_id id)]) ;;
  _ <- query "commit" None ;;
  resolve tt.

(** [where] is optional and defaults to the empty mapping. *)
Definition getAll (tableName : string)
  (where_ : option (list (string * value))) : Async (list Row) :=
  select tableName (match where_ with
                    | Some conditions => conditions
                    | None => []
                    end).

Definition updateById (tableName : string) (id : Id)
  (fields : list (string * value)) : Async unit :=
  _ <- update tableName fields [("id", value_of_id id)] ;;
  resolve tt.

(** [rows[0]] is [undefined] on an empty array: [None]. *)
Definition getItemById (tableName : string) (id : Id) : Async (option Row) :=
  rows <- select tableName [("id", value_of_id id)] ;;
  resolve (nth_error rows 0).

End Executor.

Arguments resolve {Client A} _ _.
Arguments reject {Client A} _ _.
Arguments await {Client A B} _ _ _.
Arguments sync {Client A} _ _.
Arguments try_catch {Client A} _ _ _.
Arguments console_error {Client} _ _.
Arguments client_call {Client} _ _ _ _.
Arguments for_of {Client A B} _ _ _.
Arguments query {Client} _ _ _ _.
Arguments query2 {Client} _ _ _ _.
Arguments create {Client} _ _ _ _.
Arguments upsert {Client} _ _ _ _ _.
Arguments update {Client} _ _ _ _ _.
Arguments select {Client} _ _ _ _.
Arguments delete {Client} _ _ _ _.
Arguments writeRows {Client} _ _ _ _ _.
Arguments deleteRows {Client} _ _ _ _.
Arguments getAll {Client} _ _ _ _.
Arguments updateById {Client} _ _ _ _ _.
Arguments getItemById {Client} _ _ _ _.

(** ** A client to run the layer against

    Its state is the list of answers it will give, one per call and whatever
    the statement; when the list is used up it resolves with no rows. *)

Definition Scripted : Type := list (Completion QueryResult).

Definition scripted_query (c : Scripted) (sql : string)
  (params : option (list value)) : Completion QueryResult * Scripted :=
  match c with
  | [] => (ok (mkQueryResult []), [])
  | answer :: c' => (answer, c')
  end.

(** ** The identifier pattern in the specification's words

    [^[A-Za-z_][A-Za-z_0-9]{0,30}$]: a first character that is a letter or an
    underscore, then at most thirty characters that are letters, digits or
    underscores, and nothing else. *)

Definition spec_first_chars : string :=
  "abcdefghijklmnopqrstuvwxyzABCDEFGHIJKLMNOPQRSTUVWXYZ_".

Definition spec_digits : string := "0123456789".

Definition spec_start (c : ascii) : bool :=
  existsb (Ascii.eqb c) (list_ascii_of_string spec_first_chars).

Definition spec_digit (c : ascii) : bool :=
  existsb (Ascii.eqb c) (list_ascii_of_string spec_digits).

Definition spec_char (c : ascii) : bool := spec_start c || spec_digit c.

Definition matches_identifier_pattern (name : string) : Prop :=
  exists c rest,
    name = String c rest /\
    spec_start c = true /\
    String.length rest <= 30 /\
    Forall (fun x => spec_char x = true) (list_ascii_of_string rest).

(** The same as a test, character by character. *)
Definition valid_name (name : string) : bool :=
  match name with
  | EmptyString => false
  | String c rest =>
      spec_start c
      && ((String.length rest <=? 30)%nat
          && forallb spec_char (list_ascii_of_string rest))
  end.

(** ** What the builder produces, entry by entry *)

(** The placeholder numbered [k]. *)
Definition placeholder (k : nat) : string := "$" ++ Number_toString k.

(** Every column name of the mapping passes the identifier pattern. *)
Definition names_valid (fields : list (string * value)) : Prop :=
  Forall (fun entry => valid_name (fst entry) = true) fields.

(** The entries that get a placeholder and a parameter: all of them outside
    WHERE mode, those whose value is not [null] in WHERE mode. *)
Definition parameterised (isWhere : bool) (entry : string * value) : bool :=
  negb (isWhere && is_null (snd entry)).

(** The assignment of every entry, [k] being the number of the next
    placeholder. *)
Fixpoint assignments_from (isWhere : bool) (k : nat)
  (fields : list (string * value)) : list string :=
  match fields with
  | [] => []
  | (key, v) :: rest =>
      if isWhere && is_null v then
        (quoted key ++ " is null") :: assignments_from isWhere k rest
      else
        (quoted key ++ " = " ++ placeholder k)
          :: assignments_from isWhere (S k) rest
  end.

(** The number of entries before position [i] that get a placeholder. *)
Definition parameterised_before (isWhere : bool)
  (fields : list (string * value)) (i : nat) : nat :=
  List.length (filter (parameterised isWhere) (firstn i fields)).

(** ** What the executor hands over, statement by statement *)

(** A [Date] that has a serialization: a finite time value in range. *)
Definition date_valid (d : Date) : bool :=
  match timeValue d with
  | Some t => (Z.abs t <=? maxTimeValue)%Z
  | None => false
  end.

(** Every [Date] among the parameters has a serialization. *)
Definition dates_valid (params : list value) : Prop :=
  Forall (fun param => match param with
                       | VDate d => date_valid d = true
                       | _ => True
                       end) params.

(** The statement each operation builds before it calls [query2]: the text
    and the parameters, or the error of [splitUp] or [checkName]. *)
Definition create_statement (table : string) (fields : list (string * value)) :
  Completion (string * list value) :=
  (r <- splitUp fields false 0 ;;
   name <- checkName table ;;
   ok ("insert into " ++ quoted name
       ++ " (" ++ Array_toString (columns r)
       ++ ") values (" ++ Array_toString (variables r) ++ ")",
       params r))%completion.

Definition upsert_statement (table : string) (fields : list (string * value))
  (unique : list string) : Completion (string * list value) :=
  (r <- splitUp fields false 0 ;;
   name <- checkName table ;;
   ok ("insert into " ++ quoted name
       ++ " (" ++ Array_toString (columns r)
       ++ ") values (" ++ Array_toString (variables r)
       ++ ") on conflict (" ++ Array_toString unique
       ++ ") do update set " ++ Array_toString (assignments r),
       params r))%completion.

Definition update_statement (table : string)
  (fields whereConditions : list (string * value)) :
  Completion (string * list value) :=
  (r <- splitUp fields false 0 ;;
   w <- splitUp whereConditions true (List.length (params r)) ;;
   name <- checkName table ;;
   ok ("update " ++ quoted name
       ++ " set " ++ Array_toString (assignments r) ++ whereSection w,
       (params r ++ params w)%list))%completion.

Definition select_statement (table : string)
  (whereConditions : list (string * value)) :
  Completion (string * list value) :=
  (w <- splitUp whereConditions true 0 ;;
   name <- checkName table ;;
   ok ("select * from " ++ quoted name ++ whereSection w, params w))%completion.

Definition delete_statement (table : string)
  (whereConditions : list (string * value)) :
  Completion (string * list value) :=
  (w <- splitUp whereConditions true 0 ;;
   name <- checkName table ;;
   ok ("delete from " ++ quoted name ++ whereSection w, params w))%completion.

(** The operations that execute a built statement. *)
Inductive operation : Type :=
| Create (table : string) (fields : list (string * value))
| Upsert (table : string) (fields : list (string * value))
    (unique : list string)
| Update (table : string) (fields whereConditions : list (string * value))
| Select (table : string) (whereConditions : list (string * value))
| Delete (table : string) (whereConditions : list (string * value)).

Definition perform {Client : Type}
  (client_query :
     Client -> string -> option (list value) -> Completion QueryResult * Client)
  (op : operation) : Async Client (list Row) :=
  match op with
  | Create table fields => create client_query table fields
  | Upsert table fields unique => upsert client_query table fields unique
  | Update table fields whereConditions =>
      update client_query table fields whereConditions
  | Select table whereConditions => select client_query table whereConditions
  | Delete table whereConditions => delete client_query table whereConditions
  end.

(** Executing a built statement: the error of the builder rejects, a
    statement goes to [query2]. *)
Definition execute {Client : Type}
  (client_query :
     Client -> string -> option (list value) -> Completion QueryResult * Client)
  (statement : Completion (string * list value)) : Async Client (list Row) :=
  match statement with
  | inl e => reject e
  | inr (sql, params) => query2 client_query sql params
  end.

Definition statement_of (op : operation) : Completion (string * list value) :=
  match op with
  | Create table fields => create_statement table fields
  | Upsert table fields unique => upsert_statement table fields unique
  | Update table fields whereConditions =>
      update_statement table fields whereConditions
  | Select table whereConditions => select_statement table whereConditions
  | Delete table whereConditions => delete_statement table whereConditions
  end.

(** [call] is the call of the client that executing [statement] makes: its
    text, and its parameters as [query] serializes them. *)
Definition issued (statement : Completion (string * list value))
  (call : string * option (list value)) : Prop :=
  exists sql params params',
    statement = ok (sql, params) /\
    Array_map serialize_param params = ok params' /\
    call = (sql, Some params').

(** The statements of the transaction wrapper. *)
Definition begin_call : string * option (list value) := ("begin", None).

Definition defer_call : string * option (list value) :=
  ("SET CONSTRAINTS fk_parent DEFERRED", None).

Definition commit_call : string * option (list value) := ("commit", None).

(** The single-row delete by id. *)
Definition delete_by_id_call (tableName : string) (id : Id) :
  string * option (list value) :=
  ("delete from " ++ quoted tableName ++ " where " ++ quoted "id" ++ " = $1",
   Some [value_of_id id]).

(** ** The statement texts of the specification's scenarios *)

(** Scenario 2, as the specification spells it. *)
Definition scenario_update_text : string :=
  "UPDATE " ++ quoted "users" ++ " SET " ++ quoted "age"
  ++ " = $1 WHERE " ++ quoted "id" ++ " = $2".

(** Scenario 5, as the specification spells it. *)
Definition scenario_upsert_text : string :=
  "INSERT INTO " ++ quoted "users"
  ++ " (" ++ quoted "id" ++ "," ++ quoted "name"
  ++ ") VALUES ($1,$2) ON CONFLICT (id) DO UPDATE SET "
  ++ quoted "id" ++ " = $1, " ++ quoted "name" ++ " = $2".

(** The calls of the client among what was done, in order: statement text
    and parameters. *)
Fixpoint calls (evs : list event) : list (string * option (list value)) :=
  match evs with
  | [] => []
  | ClientQuery sql params _ :: evs' => (sql, params) :: calls evs'
  | ConsoleError _ :: evs' => calls evs'
  end.

(** The errors logged among what was done, in order. *)
Fixpoint logged (evs : list event) : list exn :=
  match evs with
  | [] => []
  | ClientQuery _ _ _ :: evs' => logged evs'
  | ConsoleError e :: evs' => e :: logged evs'
  end.

(** ** What the text of a statement can depend on *)

(** The double-quote character. *)
Definition dquote_char : ascii := "034"%char.

(** The shape of a mapping: its column names and, in WHERE mode, which of
    its values are [null]. *)
Definition shape (isWhere : bool) (fields : list (string * value)) :
  list (string * bool) :=
  map (fun entry => (fst entry, isWhere && is_null (snd entry))) fields.

Definition is_date (v : value) : bool :=
  match v with
  | VDate _ => true
  | _ => false
  end.

(** The table an operation names. *)
Definition table_of (op : operation) : string :=
  match op with
  | Create table _ => table
  | Upsert table _ _ => table
  | Update table _ _ => table
  | Select table _ => table
  | Delete table _ => table
  end.

(** The WHERE text of a mapping whose first placeholder is numbered [k]:
    nothing for the empty mapping, else its assignments joined with [and]
    after [where]. *)
Definition where_text (k : nat) (conditions : list (string * value)) : string :=
  match conditions with
  | [] => EmptyString
  | _ :: _ => " where " ++ join " and " (assignments_from true k conditions)
  end.

(** The values of a mapping that are not [null]. *)
Definition non_null_values (conditions : list (string * value)) : list value :=
  map snd (filter (fun entry => negb (is_null (snd entry))) conditions).

(** ** A client that resolves every statement

    Its state counts the calls; it resolves each with no rows. *)

Definition counting_query (c : nat) (sql : string)
  (params : option (list value)) : Completion QueryResult * nat :=
  (ok (mkQueryResult []), S c).

(** * Properties *)

(** ** Regular expressions *)

Module RegExpFacts.
Import RegExp.

Lemma test_Void (s : string) : test Void s = false.
Proof. induction s as [|c s IH]; simpl; auto. Qed.

Lemma test_Alt (s : string) : forall r1 r2,
  test (Alt r1 r2) s = test r1 s || test r2 s.
Proof.
  induction s as [|c s IH]; intros r1 r2; simpl.
  - reflexivity.
  - apply IH.
Qed.

Lemma test_Cat_Void (r : re) (s : string) : test (Cat Void r) s = false.
Proof. induction s as [|c s IH]; simpl; auto. Qed.

Lemma test_Cat_Eps (r : re) (s : string) : test (Cat Eps r) s = test r s.
Proof.
  destruct s as [|c s]; simpl.
  - reflexivity.
  - now rewrite test_Alt, test_Cat_Void.
Qed.

(** A class followed by [r]: the first character is in the class and the
    rest matches [r]. *)
Lemma test_Cat_Class (p : ascii -> bool) (r : re) (s : string) :
  test (Cat (Class p) r) s =
  match s with
  | EmptyString => false
  | String c s' => p c && test r s'
  end.
Proof.
  destruct s as [|c s]; simpl.
  - reflexivity.
  - destruct (p c).
    + apply test_Cat_Eps.
    + apply test_Cat_Void.
Qed.

(** At most [n] characters of a class. *)
Lemma test_Upto_Class (p : ascii -> bool) (n : nat) : forall s,
  test (Upto n (Class p)) s =
  (String.length s <=? n)%nat && forallb p (list_ascii_of_string s).
Proof.
  induction n as [|n IH]; intros [|c s]; simpl; try reflexivity.
  - apply test_Void.
  - destruct (p c); simpl.
    + rewrite test_Cat_Eps. apply IH.
    + rewrite test_Cat_Void. now rewrite andb_false_r.
Qed.

End RegExpFacts.

(** ** checkName *)

Lemma name_start_spec (c : ascii) : name_start c = spec_start c.
Proof. destruct c as [[] [] [] [] [] [] [] []]; reflexivity. Qed.

Lemma name_char_spec (c : ascii) : name_char c = spec_char c.
Proof. destruct c as [[] [] [] [] [] [] [] []]; reflexivity. Qed.

Lemma digit_spec (c : ascii) : digit c = spec_digit c.
Proof. destruct c as [[] [] [] [] [] [] [] []]; reflexivity. Qed.

Lemma digit_not_start (c : ascii) : spec_digit c = true -> spec_start c = false.
Proof.
  destruct c as [[] [] [] [] [] [] [] []]; vm_compute; congruence.
Qed.

Lemma test_name_pattern (name : string) :
  RegExp.test name_pattern name = valid_name name.
Proof.
  unfold name_pattern. rewrite RegExpFacts.test_Cat_Class.
  destruct name as [|c rest]; simpl; [reflexivity|].
  rewrite RegExpFacts.test_Upto_Class, name_start_spec.
  do 2 f_equal.
  induction (list_ascii_of_string rest) as [|x xs IH]; simpl.
  - reflexivity.
  - now rewrite name_char_spec, IH.
Qed.

Lemma checkName_valid (name : string) :
  valid_name name = true -> checkName name = ok name.
Proof.
  intros H. unfold checkName. now rewrite test_name_pattern, H.
Qed.

Lemma checkName_invalid (name : string) :
  valid_name name = false -> checkName name = throw (IllegalIdentifier name).
Proof.
  intros H. unfold checkName. now rewrite test_name_pattern, H.
Qed.

Lemma checkName_ok_inv (name name' : string) :
  checkName name = ok name' -> name' = name /\ valid_name name = true.
Proof.
  unfold checkName. rewrite test_name_pattern.
  destruct (valid_name name); [|discriminate].
  intros H. injection H as <-. auto.
Qed.

Lemma valid_name_iff (name : string) :
  valid_name name = true <-> matches_identifier_pattern name.
Proof.
  unfold matches_identifier_pattern. split.
  - destruct name as [|c rest]; simpl; [discriminate|].
    rewrite !andb_true_iff, Nat.leb_le, forallb_forall.
    intros (Hc & Hlen & Hall). exists c, rest.
    rewrite Forall_forall. auto.
  - intros (c & rest & -> & Hc & Hlen & Hall). simpl.
    rewrite !andb_true_iff, Nat.leb_le, forallb_forall.
    rewrite Forall_forall in Hall. auto.
Qed.

(** C4.  [checkName] returns a name matching
    [^[A-Za-z_][A-Za-z_0-9]{0,30}$] unchanged; a name that holds a character
    outside [[A-Za-z0-9_]], or starts with a digit, or is longer than 31
    characters makes it throw the error carrying that name. *)
Theorem checkName_contract (name : string) :
  (matches_identifier_pattern name -> checkName name = ok name) /\
  ((exists c, In c (list_ascii_of_string name) /\ spec_char c = false) \/
   (exists c rest, name = String c rest /\ spec_digit c = true) \/
   31 < String.length name ->
   checkName name = throw (IllegalIdentifier name)).
Proof.
  split.
  - intros H. apply checkName_valid. now apply valid_name_iff.
  - intros H. apply checkName_invalid.
    destruct (valid_name name) eqn:E; [exfalso|reflexivity].
    apply valid_name_iff in E.
    destruct E as (c & rest & -> & Hc & Hlen & Hall).
    destruct H as [(x & Hin & Hx) | [(d & rest' & Heq & Hd) | Hlong]].
    + simpl in Hin. destruct Hin as [<- | Hin].
      * unfold spec_char in Hx. rewrite Hc in Hx. discriminate.
      * rewrite Forall_forall in Hall. rewrite (Hall x Hin) in Hx.
        discriminate.
    + injection Heq as <- <-. apply digit_not_start in Hd. congruence.
    + simpl in Hlong. lia.
Qed.

Lemma checkName_contract_witness :
  checkName "user_id2" = ok "user_id2" /\
  checkName "a;b" = throw (IllegalIdentifier "a;b") /\
  checkName "2fast" = throw (IllegalIdentifier "2fast") /\
  checkName "a2345678901234567890123456789012" =
    throw (IllegalIdentifier "a2345678901234567890123456789012").
Proof.
  split; [|split; [|split]].
  - apply (proj1 (checkName_contract "user_id2")).
    exists "u"%char, "ser_id2". repeat split; [simpl; lia|].
    repeat constructor.
  - apply (proj2 (checkName_contract "a;b")).
    left. exists ";"%char. split; [simpl; auto|reflexivity].
  - apply (proj2 (checkName_contract "2fast")).
    right; left. exists "2"%char, "fast". split; reflexivity.
  - apply (proj2 (checkName_contract "a2345678901234567890123456789012")).
    right; right. simpl. lia.
Defined.

(** ** splitUp *)

Lemma Number_toString_inj (a b : nat) :
  Number_toString a = Number_toString b -> a = b.
Proof.
  unfold Number_toString. intros H.
  apply Unsigned.to_uint_inj.
  assert (E : NilEmpty.uint_of_string (NilEmpty.string_of_uint (Nat.to_uint a))
              = NilEmpty.uint_of_string (NilEmpty.string_of_uint (Nat.to_uint b)))
    by now rewrite H.
  rewrite !NilEmpty.usu in E. now injection E.
Qed.

Lemma placeholder_inj : Injective placeholder.
Proof.
  intros a b H. unfold placeholder in H. simpl in H.
  injection H as H. now apply Number_toString_inj.
Qed.

Lemma names_valid_cons (key : string) (v : value) (rest : list (string * value)) :
  names_valid ((key, v) :: rest) <->
  valid_name key = true /\ names_valid rest.
Proof.
  unfold names_valid. split.
  - intros H. inversion H; subst. auto.
  - intros [H1 H2]. constructor; auto.
Qed.

(** The [reduce] of [splitUp], from any accumulator. *)
Lemma reduce_splitUp_callback (isWhere : bool) (offset : nat)
  (fields : list (string * value)) :
  names_valid fields ->
  forall acc : SplitUpResult,
    reduce (splitUp_callback isWhere offset) fields acc =
    ok {| columns :=
            (columns acc ++
             map (fun e => quoted (fst e))
               (filter (parameterised isWhere) fields))%list;
          variables :=
            (variables acc ++
             map placeholder
               (seq (offset + List.length (variables acc) + 1)
                  (List.length (filter (parameterised isWhere) fields))))%list;
          params :=
            (params acc ++ map snd (filter (parameterised isWhere) fields))%list;
          assignments :=
            (assignments acc ++
             assignments_from isWhere
               (offset + List.length (variables acc) + 1) fields)%list;
          whereSection := whereSection acc |}.
Proof.
  induction fields as [|[key v] rest IH]; intros Hvalid acc.
  - simpl. rewrite !app_nil_r. now destruct acc.
  - apply names_valid_cons in Hvalid. destruct Hvalid as [Hkey Hrest].
    cbn [reduce splitUp_callback filter assignments_from].
    rewrite (checkName_valid _ Hkey).
    replace (parameterised isWhere (key, v))
      with (negb (isWhere && is_null v)) by reflexivity.
    cbn [cbind ok].
    destruct (isWhere && is_null v) eqn:Hnull; cbn [negb cbind ok].
    + rewrite (IH Hrest). unfold push.
      cbn [columns variables params assignments whereSection].
      now rewrite <- !app_assoc.
    + rewrite (IH Hrest). unfold push.
      cbn [columns variables params assignments whereSection
           map List.length seq fst snd].
      rewrite !length_app. cbn [List.length].
      rewrite <- !app_assoc. cbn [app].
      replace (offset + (List.length (variables acc) + 1) + 1)
        with (S (offset + List.length (variables acc) + 1)) by lia.
      reflexivity.
Qed.

Lemma length_assignments_from (isWhere : bool) (fields : list (string * value)) :
  forall k, List.length (assignments_from isWhere k fields) = List.length fields.
Proof.
  induction fields as [|[key v] rest IH]; intros k; simpl.
  - reflexivity.
  - destruct (isWhere && is_null v); simpl; now rewrite IH.
Qed.

(** The whole of [splitUp] on a mapping whose names are valid. *)
Lemma splitUp_valid (isWhere : bool) (offset : nat)
  (fields : list (string * value)) :
  names_valid fields ->
  splitUp fields isWhere offset =
  ok {| columns :=
          map (fun e => quoted (fst e)) (filter (parameterised isWhere) fields);
        variables :=
          map placeholder
            (seq (offset + 1)
               (List.length (filter (parameterised isWhere) fields)));
        params := map snd (filter (parameterised isWhere) fields);
        assignments := assignments_from isWhere (offset + 1) fields;
        whereSection :=
          if isWhere then
            match fields with
            | [] => EmptyString
            | _ :: _ =>
                " where "
                ++ join " and " (assignments_from isWhere (offset + 1) fields)
            end
          else EmptyString |}.
Proof.
  intros Hvalid. unfold splitUp.
  rewrite (reduce_splitUp_callback isWhere offset fields Hvalid splitUp_init).
  cbn [cbind splitUp_init columns variables params assignments whereSection
       app List.length].
  rewrite Nat.add_0_r.
  destruct isWhere; [|reflexivity].
  cbn [columns variables params assignments whereSection].
  unfold ok. do 2 f_equal.
  destruct fields as [|[key v] rest]; [reflexivity|].
  destruct (assignments_from true (offset + 1) ((key, v) :: rest)) eqn:E.
  - apply (f_equal (@List.length string)) in E.
    rewrite length_assignments_from in E. discriminate.
  - reflexivity.
Qed.

Lemma reduce_app {A B} (f : A -> B -> Completion A) (xs ys : list B) :
  forall acc,
    reduce f (xs ++ ys)%list acc =
    (acc' <- reduce f xs acc ;; reduce f ys acc')%completion.
Proof.
  induction xs as [|x xs IH]; intros acc; simpl.
  - reflexivity.
  - destruct (f acc x) as [e|acc']; simpl; [reflexivity|apply IH].
Qed.

(** A name that fails the pattern makes [splitUp] throw, at the first such
    name in iteration order and in either mode. *)
Lemma splitUp_illegal (isWhere : bool) (offset : nat)
  (pre post : list (string * value)) (key : string) (v : value) :
  names_valid pre ->
  valid_name key = false ->
  splitUp (pre ++ (key, v) :: post)%list isWhere offset =
  throw (IllegalIdentifier key).
Proof.
  intros Hpre Hkey. unfold splitUp.
  rewrite reduce_app, (reduce_splitUp_callback _ _ _ Hpre).
  cbn [cbind ok reduce splitUp_callback].
  now rewrite (checkName_invalid _ Hkey).
Qed.

(** C1.  Outside WHERE mode, on a mapping of [N] entries (its column names
    valid identifiers, as a field mapping has them) and from offset [O],
    [splitUp] returns [N] quoted column names, the [N] placeholders
    [$(O+1)], ..., [$(O+N)] in this order, and as parameters the values of
    the mapping in iteration order. *)
Theorem splitUp_non_where (fields : list (string * value)) (offset : nat) :
  names_valid fields ->
  exists r,
    splitUp fields false offset = ok r /\
    columns r = map (fun entry => quoted (fst entry)) fields /\
    List.length (columns r) = List.length fields /\
    variables r = map placeholder (seq (offset + 1) (List.length fields)) /\
    List.length (variables r) = List.length fields /\
    params r = map snd fields.
Proof.
  intros Hvalid.
  assert (Hall : filter (parameterised false) fields = fields).
  { clear Hvalid. induction fields as [|e rest IH]; simpl; congruence. }
  eexists. split; [apply (splitUp_valid false offset fields Hvalid)|].
  cbn [columns variables params]. rewrite Hall.
  rewrite !length_map, length_seq. auto.
Qed.

Lemma splitUp_non_where_witness :
  exists r,
    splitUp [("name", VString "Alice"); ("age", VNumber 30); ("boss", VNull)]
      false 7 = ok r /\
    columns r = [quoted "name"; quoted "age"; quoted "boss"] /\
    List.length (columns r) = 3 /\
    variables r = ["$8"; "$9"; "$10"] /\
    List.length (variables r) = 3 /\
    params r = [VString "Alice"; VNumber 30; VNull].
Proof.
  apply (splitUp_non_where
           [("name", VString "Alice"); ("age", VNumber 30); ("boss", VNull)] 7).
  repeat constructor.
Defined.

Lemma is_null_iff (v : value) : is_null v = true <-> v = VNull.
Proof. destruct v; simpl; split; congruence. Qed.

Lemma parameterised_where (entry : string * value) :
  parameterised true entry = negb (is_null (snd entry)).
Proof. reflexivity. Qed.

(** The assignment at position [i]. *)
Lemma nth_error_assignments_from (isWhere : bool)
  (fields : list (string * value)) :
  forall k i key v,
    nth_error fields i = Some (key, v) ->
    nth_error (assignments_from isWhere k fields) i =
    Some (if isWhere && is_null v then quoted key ++ " is null"
          else quoted key ++ " = "
               ++ placeholder (k + parameterised_before isWhere fields i)).
Proof.
  unfold parameterised_before.
  induction fields as [|[key0 v0] rest IH]; intros k [|i] key v H;
    try discriminate.
  - injection H as -> ->. cbn [assignments_from firstn filter List.length].
    rewrite Nat.add_0_r. now destruct (isWhere && is_null v).
  - cbn [nth_error] in H. cbn [assignments_from firstn filter].
    replace (parameterised isWhere (key0, v0))
      with (negb (isWhere && is_null v0)) by reflexivity.
    destruct (isWhere && is_null v0); cbn [negb nth_error List.length].
    + now apply IH.
    + rewrite (IH (S k) i key v H).
      now replace (S k + List.length (filter (parameterised isWhere) (firstn i rest)))
        with (k + S (List.length (filter (parameterised isWhere) (firstn i rest))))
        by lia.
Qed.

(** Where a kept element lands in a filtered list. *)
Lemma nth_error_filter_before {A} (p : A -> bool) (xs : list A) :
  forall i x,
    nth_error xs i = Some x ->
    p x = true ->
    nth_error (filter p xs) (List.length (filter p (firstn i xs))) = Some x.
Proof.
  induction xs as [|y ys IH]; intros [|i] x H Hp; try discriminate.
  - injection H as ->. simpl. now rewrite Hp.
  - cbn [nth_error] in H. cbn [firstn filter].
    destruct (p y); cbn [List.length nth_error]; now apply IH.
Qed.

(** C2.  In WHERE mode (the column names valid identifiers), an entry whose
    value is [null] becomes the assignment [column is null] and gives no
    placeholder and no parameter; any other entry becomes [column = $k] with
    [k] the next free number and gives that placeholder and its value as
    one parameter; and the WHERE text is empty exactly when the mapping is
    empty, else the assignments joined with [and] after [where]. *)
Theorem splitUp_where (fields : list (string * value)) (offset : nat) :
  names_valid fields ->
  exists r,
    splitUp fields true offset = ok r /\
    List.length (assignments r) = List.length fields /\
    (forall i key v,
        nth_error fields i = Some (key, v) ->
        (v = VNull ->
         nth_error (assignments r) i = Some (quoted key ++ " is null")) /\
        (v <> VNull ->
         let j := parameterised_before true fields i in
         nth_error (assignments r) i =
           Some (quoted key ++ " = " ++ placeholder (offset + j + 1)) /\
         nth_error (variables r) j = Some (placeholder (offset + j + 1)) /\
         nth_error (params r) j = Some v)) /\
    params r = map snd (filter (fun entry => negb (is_null (snd entry))) fields) /\
    variables r =
      map placeholder (seq (offset + 1) (List.length (params r))) /\
    (whereSection r = EmptyString <-> fields = []) /\
    (fields <> [] ->
     whereSection r = " where " ++ join " and " (assignments r)).
Proof.
  intros Hvalid.
  eexists. split; [apply (splitUp_valid true offset fields Hvalid)|].
  cbn [columns variables params assignments whereSection].
  split; [apply length_assignments_from|].
  split; [|split; [reflexivity|split; [|split]]].
  - intros i key v Hi.
    pose proof (nth_error_assignments_from true fields (offset + 1) i key v Hi)
      as Ha.
    cbn [andb] in Ha. split.
    + intros ->. exact Ha.
    + intros Hv. set (j := parameterised_before true fields i).
      assert (Hn : is_null v = false).
      { destruct (is_null v) eqn:E; [|reflexivity].
        apply is_null_iff in E. contradiction. }
      rewrite Hn in Ha.
      replace (offset + j + 1) with (offset + 1 + j) by lia.
      split; [exact Ha|].
      assert (Hp : nth_error (filter (parameterised true) fields) j
                   = Some (key, v)).
      { apply nth_error_filter_before; [exact Hi|].
        rewrite parameterised_where. simpl. now rewrite Hn. }
      split.
      * rewrite nth_error_map.
        assert (Hj : j < List.length (filter (parameterised true) fields)).
        { apply nth_error_Some. rewrite Hp. discriminate. }
        rewrite nth_error_seq.
        apply Nat.ltb_lt in Hj. now rewrite Hj.
      * rewrite nth_error_map, Hp. reflexivity.
  - now rewrite length_map.
  - destruct fields; split; intros H; try reflexivity; discriminate.
  - destruct fields; [contradiction|reflexivity].
Qed.

Lemma splitUp_where_witness :
  exists r,
    splitUp [("a", VNumber 1); ("b", VNull); ("c", VString "x")] true 9 = ok r /\
    assignments r
    = [quoted "a" ++ " = $10"; quoted "b" ++ " is null"; quoted "c" ++ " = $11"] /\
    variables r = ["$10"; "$11"] /\
    params r = [VNumber 1; VString "x"] /\
    whereSection r
    = " where " ++ quoted "a" ++ " = $10 and " ++ quoted "b"
      ++ " is null and " ++ quoted "c" ++ " = $11".
Proof.
  destruct (splitUp_where
              [("a", VNumber 1); ("b", VNull); ("c", VString "x")] 9)
    as (r & Hr & _).
  - repeat constructor.
  - exists r. split; [exact Hr|].
    vm_compute in Hr. injection Hr as <-. repeat split.
Defined.

(** ** The SET and WHERE fragments of one statement *)

(** C3, as the specification states it, fails: a WHERE entry whose value is
    [null] takes no placeholder, so a SET mapping of one entry and a WHERE
    mapping of one [null] entry use [$1] alone, not [$1] and [$2]. *)
Lemma update_placeholders_counterexample :
  exists s w,
    splitUp [("a", VNumber 1)] false 0 = ok s /\
    splitUp [("b", VNull)] true (List.length (params s)) = ok w /\
    (variables s ++ variables w)%list
    <> map placeholder
         (seq 1 (List.length [("a", VNumber 1)] + List.length [("b", VNull)])).
Proof.
  eexists. eexists. split; [reflexivity|]. split; [reflexivity|].
  vm_compute. discriminate.
Qed.

(** C3, amended.  With the SET fragment built at offset 0 and the WHERE
    fragment at the offset of the SET fragment's parameter count, as [update]
    builds them, the placeholders are [$1], ..., [$(N+M')], [N] the size of
    the SET mapping and [M'] the number of WHERE entries whose value is not
    [null]; none occurs twice; and the parameters are those of SET followed
    by those of WHERE. *)
Theorem update_placeholders (fields whereConditions : list (string * value)) :
  names_valid fields ->
  names_valid whereConditions ->
  exists s w,
    splitUp fields false 0 = ok s /\
    splitUp whereConditions true (List.length (params s)) = ok w /\
    (variables s ++ variables w)%list
    = map placeholder
        (seq 1
           (List.length fields
            + List.length
                (filter (fun entry => negb (is_null (snd entry)))
                   whereConditions))) /\
    NoDup (variables s ++ variables w) /\
    (params s ++ params w)%list
    = (map snd fields
       ++ map snd
            (filter (fun entry => negb (is_null (snd entry)))
               whereConditions))%list.
Proof.
  intros Hf Hw.
  assert (Hall : filter (parameterised false) fields = fields).
  { clear Hf. induction fields as [|e rest IH]; simpl; congruence. }
  eexists. eexists.
  split; [apply (splitUp_valid false 0 fields Hf)|].
  split; [apply (splitUp_valid true _ whereConditions Hw)|].
  cbn [columns variables params]. rewrite Hall, !length_map.
  assert (Hvars :
    (map placeholder (seq (0 + 1) (List.length fields))
     ++ map placeholder
          (seq (List.length fields + 1)
             (List.length (filter (parameterised true) whereConditions))))%list
    = map placeholder
        (seq 1
           (List.length fields
            + List.length
                (filter (fun entry => negb (is_null (snd entry)))
                   whereConditions)))).
  { rewrite seq_app, map_app.
    now replace (1 + List.length fields) with (List.length fields + 1) by lia. }
  split; [exact Hvars|]. split; [|reflexivity].
  rewrite Hvars. apply Injective_map_NoDup.
  - apply placeholder_inj.
  - apply seq_NoDup.
Qed.

Lemma update_placeholders_witness :
  exists s w,
    splitUp [("age", VNumber 31); ("boss", VNull)] false 0 = ok s /\
    splitUp [("gone", VNull); ("id", VNumber 5)] true (List.length (params s))
    = ok w /\
    (variables s ++ variables w)%list = ["$1"; "$2"; "$3"] /\
    NoDup (variables s ++ variables w) /\
    (params s ++ params w)%list = [VNumber 31; VNull; VNumber 5].
Proof.
  apply (update_placeholders
           [("age", VNumber 31); ("boss", VNull)]
           [("gone", VNull); ("id", VNumber 5)]);
    repeat constructor.
Defined.

(** ** The low-level query methods *)

Lemma toISOString_valid (d : Date) :
  date_valid d = true -> exists s, toISOString d = ok s.
Proof.
  unfold date_valid, toISOString. destruct (timeValue d) as [t|]; [|discriminate].
  intros ->. destruct (civil_from_days (t / msPerDay)) as [[y m] dd].
  eexists. reflexivity.
Qed.

Lemma toISOString_invalid (d : Date) :
  date_valid d = false ->
  toISOString d = throw (RangeError "Invalid time value").
Proof.
  unfold date_valid, toISOString. destruct (timeValue d) as [t|]; [|reflexivity].
  now intros ->.
Qed.

Lemma dates_valid_cons (param : value) (params : list value) :
  dates_valid (param :: params) ->
  match param with
  | VDate d => date_valid d = true
  | _ => True
  end /\ dates_valid params.
Proof. intros H. inversion H; subst. auto. Qed.

(** The [map] of [query] on parameters whose dates are valid: position by
    position, a [Date] becomes its text and anything else stays. *)
Lemma Array_map_serialize_param (params : list value) :
  dates_valid params ->
  exists params',
    Array_map serialize_param params = ok params' /\
    List.length params' = List.length params /\
    forall i param,
      nth_error params i = Some param ->
      match param with
      | VDate d =>
          exists s, toISOString d = ok s /\
                    nth_error params' i = Some (VString s)
      | _ => nth_error params' i = Some param
      end.
Proof.
  induction params as [|p ps IH]; intros Hvalid.
  - exists []. repeat split. intros [|i] param H; discriminate.
  - apply dates_valid_cons in Hvalid. destruct Hvalid as [Hp Hps].
    destruct (IH Hps) as (ps' & Hmap & Hlen & Hnth).
    assert (Hhead : exists p',
               serialize_param p = ok p' /\
               match p with
               | VDate d => exists s, toISOString d = ok s /\ p' = VString s
               | _ => p' = p
               end).
    { destruct p; try (eexists; split; reflexivity).
      destruct (toISOString_valid d Hp) as (s & Hs).
      exists (VString s). simpl. rewrite Hs. split; [reflexivity|].
      exists s. auto. }
    destruct Hhead as (p' & Hser & Hp').
    exists (p' :: ps'). simpl. rewrite Hser, Hmap. simpl.
    split; [reflexivity|]. split; [now rewrite Hlen|].
    intros [|i] param H; cbn [nth_error] in *.
    + injection H as <-. destruct p; try (now subst p').
      destruct Hp' as (s & Hs & ->). exists s. auto.
    + now apply Hnth.
Qed.

(** Parameters without a [Date] go through unchanged. *)
Lemma Array_map_serialize_param_id (params : list value) :
  Forall (fun param => forall d, param <> VDate d) params ->
  Array_map serialize_param params = ok params.
Proof.
  induction 1 as [|p ps Hp Hps IH]; simpl.
  - reflexivity.
  - rewrite IH. destruct p; try reflexivity. now destruct (Hp d).
Qed.

(** An invalid [Date] among the parameters, the first at the end of [pre]:
    the [map] throws there. *)
Lemma Array_map_serialize_param_invalid (pre post : list value) (d : Date) :
  dates_valid pre ->
  date_valid d = false ->
  Array_map serialize_param (pre ++ VDate d :: post)%list =
  throw (RangeError "Invalid time value").
Proof.
  intros Hpre Hd. induction pre as [|p ps IH]; simpl.
  - now rewrite (toISOString_invalid d Hd).
  - apply dates_valid_cons in Hpre. destruct Hpre as [Hp Hps].
    rewrite (IH Hps).
    destruct p; try reflexivity.
    destruct (toISOString_valid d0 Hp) as (s & Hs). simpl. now rewrite Hs.
Qed.

Section ExecutorFacts.

Variable Client : Type.
Variable client_query :
  Client -> string -> option (list value) -> Completion QueryResult * Client.

Lemma query_Some (sql : string) (params : list value) (c : Client) :
  query client_query sql (Some params) c =
  match Array_map serialize_param params with
  | inl e => (inl e, c, [])
  | inr params' => client_call client_query sql (Some params') c
  end.
Proof.
  unfold query, await, sync, client_call.
  destruct (Array_map serialize_param params) as [e|params']; simpl.
  - reflexivity.
  - now destruct (client_query c sql (Some params')) as [out c'].
Qed.

Lemma query_None (sql : string) (c : Client) :
  query client_query sql None c = client_call client_query sql None c.
Proof.
  unfold query, await, sync, client_call. simpl.
  now destruct (client_query c sql None) as [out c'].
Qed.

(** [query2], case by case: the serialization throws, the client rejects,
    the client resolves. *)
Lemma query2_cases (sql : string) (params : list value) (c : Client) :
  query2 client_query sql params c =
  match Array_map serialize_param params with
  | inl e => (inl e, c, [ConsoleError e])
  | inr params' =>
      match client_query c sql (Some params') with
      | (inl e, c') =>
          (inl e, c', [ClientQuery sql (Some params') (inl e); ConsoleError e])
      | (inr queryResult, c') =>
          (inr (rows queryResult), c',
           [ClientQuery sql (Some params') (inr queryResult)])
      end
  end.
Proof.
  unfold query2, try_catch, await at 1. rewrite query_Some.
  destruct (Array_map serialize_param params) as [e|params'].
  - reflexivity.
  - unfold client_call.
    destruct (client_query c sql (Some params')) as [[e|queryResult] c'];
      reflexivity.
Qed.

(** C7.  [query] hands the client the statement text and, position by
    position, the text of [toISOString] for a parameter that is a [Date]
    (one that has a serialization) and the parameter itself for any other. *)
Theorem query_serializes_dates (sql : string) (params : list value)
  (c : Client) :
  dates_valid params ->
  exists params',
    query client_query sql (Some params) c
    = client_call client_query sql (Some params') c /\
    List.length params' = List.length params /\
    forall i param,
      nth_error params i = Some param ->
      match param with
      | VDate d =>
          exists s, toISOString d = ok s /\
                    nth_error params' i = Some (VString s)
      | _ => nth_error params' i = Some param
      end.
Proof.
  intros Hvalid.
  destruct (Array_map_serialize_param params Hvalid)
    as (params' & Hmap & Hlen & Hnth).
  exists params'. rewrite query_Some, Hmap. auto.
Qed.

(** A [Date] without a serialization makes [query] reject before the client
    is called. *)
Lemma query_invalid_date (sql : string) (pre post : list value) (d : Date)
  (c : Client) :
  dates_valid pre ->
  date_valid d = false ->
  query client_query sql (Some (pre ++ VDate d :: post)%list) c =
  (throw (RangeError "Invalid time value"), c, []).
Proof.
  intros Hpre Hd.
  now rewrite query_Some, (Array_map_serialize_param_invalid pre post d Hpre Hd).
Qed.

End ExecutorFacts.

Lemma query_serializes_dates_witness :
  exists params',
    query scripted_query "select $1, $2, $3"
      (Some [VDate (mkDate (Some 0%Z)); VNull; VNumber 3]) []
    = client_call scripted_query "select $1, $2, $3" (Some params') [] /\
    List.length params' = 3 /\
    forall i param,
      nth_error [VDate (mkDate (Some 0%Z)); VNull; VNumber 3] i = Some param ->
      match param with
      | VDate d =>
          exists s, toISOString d = ok s /\
                    nth_error params' i = Some (VString s)
      | _ => nth_error params' i = Some param
      end.
Proof.
  apply (query_serializes_dates Scripted scripted_query "select $1, $2, $3"
           [VDate (mkDate (Some 0%Z)); VNull; VNumber 3] []).
  repeat constructor.
Defined.

(** ** The operations *)

Lemma calls_app (evs evs' : list event) :
  calls (evs ++ evs') = (calls evs ++ calls evs')%list.
Proof.
  induction evs as [|[sql params out|e] evs IH]; simpl; congruence.
Qed.

Lemma assignments_from_combine (fields : list (string * value)) :
  forall k,
    assignments_from false k fields =
    map (fun cv => fst cv ++ " = " ++ snd cv)
      (combine (map (fun entry => quoted (fst entry)) fields)
         (map placeholder (seq k (List.length fields)))).
Proof.
  induction fields as [|[key v] rest IH]; intros k; simpl.
  - reflexivity.
  - now rewrite IH.
Qed.

Section OperationFacts.

Variable Client : Type.
Variable client_query :
  Client -> string -> option (list value) -> Completion QueryResult * Client.

Lemma await_sync {A B} (m : Completion A) (k : A -> Async Client B)
  (c : Client) :
  await (sync m) k c =
  match m with
  | inl e => (inl e, c, [])
  | inr a => k a c
  end.
Proof.
  unfold await, sync. destruct m as [e|a]; [reflexivity|].
  now destruct (k a c) as [[r c'] evs].
Qed.

Lemma await_resolve {A} (m : Async Client A) (c : Client) :
  await m (fun a => resolve a) c = m c.
Proof.
  unfold await, resolve. destruct (m c) as [[[e|a] c'] evs]; [reflexivity|].
  now rewrite app_nil_r.
Qed.

(** Every operation builds its statement and then executes it. *)
Lemma perform_execute (op : operation) (c : Client) :
  perform client_query op c = execute client_query (statement_of op) c.
Proof.
  destruct op as [table fields|table fields unique|table fields wc
                 |table wc|table wc];
    cbn [perform statement_of];
    unfold create, create_statement, upsert, upsert_statement,
      update, update_statement, select, select_statement,
      delete, delete_statement.
  - rewrite await_sync. destruct (splitUp fields false 0) as [e|r];
      [reflexivity|]. rewrite await_sync. cbn [cbind].
    destruct (checkName table) as [e|name]; reflexivity.
  - rewrite await_sync. destruct (splitUp fields false 0) as [e|r];
      [reflexivity|]. rewrite await_sync. cbn [cbind].
    destruct (checkName table) as [e|name]; reflexivity.
  - rewrite await_sync. destruct (splitUp fields false 0) as [e|r];
      [reflexivity|]. rewrite await_sync. cbn [cbind].
    destruct (splitUp wc true (List.length (params r))) as [e|w];
      [reflexivity|]. rewrite await_sync. cbn [cbind].
    destruct (checkName table) as [e|name]; reflexivity.
  - rewrite await_sync. destruct (splitUp wc true 0) as [e|w];
      [reflexivity|]. rewrite await_sync. cbn [cbind].
    destruct (checkName table) as [e|name]; [reflexivity|].
    cbn [cbind ok execute]. apply await_resolve.
  - rewrite await_sync. destruct (splitUp wc true 0) as [e|w];
      [reflexivity|]. rewrite await_sync. cbn [cbind].
    destruct (checkName table) as [e|name]; reflexivity.
Qed.

(** What executing a statement does, case by case. *)
Lemma execute_cases (statement : Completion (string * list value))
  (c : Client) (res : Completion (list Row)) (c' : Client)
  (evs : list event) :
  execute client_query statement c = (res, c', evs) ->
  (exists e, statement = inl e /\ res = inl e /\ c' = c /\ evs = []) \/
  (exists sql params e,
      statement = ok (sql, params) /\
      Array_map serialize_param params = inl e /\
      res = inl e /\ c' = c /\ evs = [ConsoleError e]) \/
  (exists sql params params' e,
      statement = ok (sql, params) /\
      Array_map serialize_param params = ok params' /\
      client_query c sql (Some params') = (inl e, c') /\
      res = inl e /\
      evs = [ClientQuery sql (Some params') (inl e); ConsoleError e]) \/
  (exists sql params params' queryResult,
      statement = ok (sql, params) /\
      Array_map serialize_param params = ok params' /\
      client_query c sql (Some params') = (inr queryResult, c') /\
      res = inr (rows queryResult) /\
      evs = [ClientQuery sql (Some params') (inr queryResult)]).
Proof.
  destruct statement as [e|[sql params]]; cbn [execute].
  - unfold reject. intros H. injection H as <- <- <-. left. exists e. auto.
  - rewrite query2_cases.
    destruct (Array_map serialize_param params) as [e|params'] eqn:Hmap.
    + intros H. injection H as <- <- <-. right; left.
      exists sql, params, e. auto.
    + destruct (client_query c sql (Some params')) as [[e|queryResult] c1]
        eqn:Hq; intros H; injection H as <- <- <-.
      * right; right; left. exists sql, params, params', e. auto.
      * right; right; right. exists sql, params, params', queryResult. auto.
Qed.

(** C8.  In [create], [upsert], [update], [select] and [delete], when the
    client's [query] rejects with [e], the operation rejects with this same
    [e], after one call of the client and one [console.error] of [e] and
    nothing else: no second call, no other error, no rows. *)
Theorem driver_error_logged_and_rethrown (op : operation) (c c' : Client)
  (res : Completion (list Row)) (evs : list event)
  (sql : string) (params : option (list value)) (e : exn) :
  perform client_query op c = (res, c', evs) ->
  In (ClientQuery sql params (inl e)) evs ->
  res = throw e /\
  evs = [ClientQuery sql params (inl e); ConsoleError e] /\
  calls evs = [(sql, params)] /\
  logged evs = [e].
Proof.
  rewrite perform_execute. intros Hrun Hin.
  apply execute_cases in Hrun.
  destruct Hrun as [(e0 & _ & _ & _ & ->)
                   |[(sql0 & ps & e0 & _ & _ & _ & _ & ->)
                    |[(sql0 & ps & ps' & e0 & _ & _ & _ & -> & ->)
                     |(sql0 & ps & ps' & qr & _ & _ & _ & _ & ->)]]];
    simpl in Hin.
  - contradiction.
  - destruct Hin as [H|[]]. discriminate.
  - destruct Hin as [H|[H|[]]]; [|discriminate].
    injection H as -> -> ->. auto.
  - destruct Hin as [H|[]]. discriminate.
Qed.

End OperationFacts.

Lemma driver_error_logged_and_rethrown_witness :
  let e := DriverError "23505" "duplicate key value" in
  let sql :=
    "insert into " ++ quoted "users" ++ " (" ++ quoted "name" ++ ","
    ++ quoted "age" ++ ") values ($1,$2)" in
  let params := Some [VString "Alice"; VNumber 30] in
  perform scripted_query
    (Create "users" [("name", VString "Alice"); ("age", VNumber 30)])
    [inl e]
  = (throw e, [], [ClientQuery sql params (inl e); ConsoleError e]) /\
  calls [ClientQuery sql params (inl e); ConsoleError e] = [(sql, params)] /\
  logged [ClientQuery sql params (inl e); ConsoleError e] = [e].
Proof.
  intros e sql params.
  destruct (driver_error_logged_and_rethrown Scripted scripted_query
              (Create "users" [("name", VString "Alice"); ("age", VNumber 30)])
              [inl e] [] (throw e)
              [ClientQuery sql params (inl e); ConsoleError e]
              sql params e) as (_ & _ & Hcalls & Hlogged).
  - reflexivity.
  - simpl. auto.
  - split; [reflexivity|]. split; assumption.
Defined.

(** ** Statements issued *)

Lemma filter_parameterised_false (fields : list (string * value)) :
  filter (parameterised false) fields = fields.
Proof. induction fields as [|e rest IH]; simpl; congruence. Qed.

Lemma select_by_id_statement (tableName : string) (id : Id) (sql : string)
  (ps : list value) :
  select_statement tableName [("id", value_of_id id)] = ok (sql, ps) ->
  sql = "select * from " ++ quoted tableName ++ " where " ++ quoted "id" ++ " = $1"
  /\ ps = [value_of_id id].
Proof.
  unfold select_statement.
  rewrite (splitUp_valid true 0 [("id", value_of_id id)])
    by (repeat constructor).
  cbn [cbind ok]. destruct (checkName tableName) as [e|name] eqn:Hname;
    [discriminate|].
  apply checkName_ok_inv in Hname. destruct Hname as [-> _].
  cbn [cbind ok whereSection params].
  intros H. injection H as <- <-. now destruct id.
Qed.

Section StatementFacts.

Variable Client : Type.
Variable client_query :
  Client -> string -> option (list value) -> Completion QueryResult * Client.

(** A statement whose parameters serialize is one call of the client. *)
Lemma execute_calls (sql : string) (params params' : list value) (c : Client) :
  Array_map serialize_param params = ok params' ->
  calls (snd (execute client_query (ok (sql, params)) c))
  = [(sql, Some params')].
Proof.
  intros Hmap. cbn [execute ok]. rewrite query2_cases, Hmap. unfold ok.
  destruct (client_query c sql (Some params')) as [[e|queryResult] c'];
    reflexivity.
Qed.

(** C6, amended.  [update("users", {age:31}, {id:5})] issues one statement,
    with the text [update "users" set "age" = $1 where "id" = $2] (the
    keywords in lower case) and the parameters [[31, 5]]. *)
Theorem update_scenario (c : Client) :
  calls (snd (update client_query "users" [("age", VNumber 31)]
                [("id", VNumber 5)] c))
  = [("update " ++ quoted "users" ++ " set " ++ quoted "age"
      ++ " = $1 where " ++ quoted "id" ++ " = $2",
      Some [VNumber 31; VNumber 5])].
Proof.
  change (update client_query "users" [("age", VNumber 31)]
            [("id", VNumber 5)] c)
    with (perform client_query
            (Update "users" [("age", VNumber 31)] [("id", VNumber 5)]) c).
  rewrite perform_execute.
  assert (Hst :
    statement_of (Update "users" [("age", VNumber 31)] [("id", VNumber 5)])
    = ok ("update " ++ quoted "users" ++ " set " ++ quoted "age"
          ++ " = $1 where " ++ quoted "id" ++ " = $2",
          [VNumber 31; VNumber 5])) by (vm_compute; reflexivity).
  rewrite Hst. now apply execute_calls.
Qed.

(** C5, amended.  [upsert(table, fields, unique)] hands [query2] the text
    [insert into "table" (columns) values (placeholders) on conflict (unique)
    do update set assignments], the lists joined by a comma alone, where the
    assignments pair each column with the placeholder it has in the VALUES
    list and [unique] is put in as it comes, whatever its names are; so
    [upsert("users", {id:1,name:"Bob"}, ["id"])] issues
    [insert into "users" ("id","name") values ($1,$2) on conflict (id) do
    update set "id" = $1,"name" = $2]. *)
Theorem upsert_statement_form (table : string)
  (fields : list (string * value)) (unique : list string) (c : Client) :
  (valid_name table = true ->
   names_valid fields ->
   exists r,
     splitUp fields false 0 = ok r /\
     columns r = map (fun entry => quoted (fst entry)) fields /\
     variables r = map placeholder (seq 1 (List.length fields)) /\
     assignments r
     = map (fun cv => fst cv ++ " = " ++ snd cv)
         (combine (columns r) (variables r)) /\
     upsert client_query table fields unique c
     = query2 client_query
         ("insert into " ++ quoted table
          ++ " (" ++ join "," (columns r)
          ++ ") values (" ++ join "," (variables r)
          ++ ") on conflict (" ++ join "," unique
          ++ ") do update set " ++ join "," (assignments r))
         (params r) c) /\
  calls (snd (upsert client_query "users"
                [("id", VNumber 1); ("name", VString "Bob")] ["id"] c))
  = [("insert into " ++ quoted "users"
      ++ " (" ++ quoted "id" ++ "," ++ quoted "name"
      ++ ") values ($1,$2) on conflict (id) do update set "
      ++ quoted "id" ++ " = $1," ++ quoted "name" ++ " = $2",
      Some [VNumber 1; VString "Bob"])].
Proof.
  split.
  - intros Htable Hfields.
    eexists. split; [apply (splitUp_valid false 0 fields Hfields)|].
    cbn [columns variables params assignments].
    rewrite filter_parameterised_false.
    split; [reflexivity|]. split; [reflexivity|].
    split; [apply assignments_from_combine|].
    unfold upsert. rewrite await_sync, (splitUp_valid false 0 fields Hfields).
    unfold ok. rewrite await_sync, (checkName_valid table Htable).
    unfold ok. cbn [columns variables params assignments].
    now rewrite filter_parameterised_false.
  - change (upsert client_query "users"
              [("id", VNumber 1); ("name", VString "Bob")] ["id"] c)
      with (perform client_query
              (Upsert "users" [("id", VNumber 1); ("name", VString "Bob")]
                 ["id"]) c).
    rewrite perform_execute.
    assert (Hst :
      statement_of
        (Upsert "users" [("id", VNumber 1); ("name", VString "Bob")] ["id"])
      = ok ("insert into " ++ quoted "users"
            ++ " (" ++ quoted "id" ++ "," ++ quoted "name"
            ++ ") values ($1,$2) on conflict (id) do update set "
            ++ quoted "id" ++ " = $1," ++ quoted "name" ++ " = $2",
            [VNumber 1; VString "Bob"])) by (vm_compute; reflexivity).
    rewrite Hst. now apply execute_calls.
Qed.

(** With a valid table name the SELECT of [getItemById] is sent, and when
    the client answers it with rows [getItemById] resolves with [rows[0]]. *)
Lemma getItemById_run (tableName : string) (id : Id) (c c' : Client)
  (queryResult : QueryResult) :
  valid_name tableName = true ->
  client_query c
    ("select * from " ++ quoted tableName ++ " where " ++ quoted "id" ++ " = $1")
    (Some [value_of_id id])
  = (ok queryResult, c') ->
  getItemById client_query tableName id c
  = (ok (nth_error (rows queryResult) 0), c',
     [ClientQuery
        ("select * from " ++ quoted tableName ++ " where " ++ quoted "id"
         ++ " = $1")
        (Some [value_of_id id]) (ok queryResult)]).
Proof.
  intros Htable Hq.
  unfold getItemById, await at 1.
  change (select client_query tableName [("id", value_of_id id)] c)
    with (perform client_query
            (Select tableName [("id", value_of_id id)]) c).
  rewrite perform_execute. cbn [statement_of]. unfold select_statement.
  rewrite (splitUp_valid true 0 [("id", value_of_id id)])
    by (repeat constructor).
  cbn [cbind ok]. rewrite (checkName_valid tableName Htable).
  cbn [cbind ok columns variables params assignments whereSection execute].
  rewrite query2_cases.
  assert (Hid : filter (parameterised true) [("id", value_of_id id)]
                = [("id", value_of_id id)]) by (now destruct id).
  assert (Hassign : assignments_from true (0 + 1) [("id", value_of_id id)]
                    = [quoted "id" ++ " = $1"]) by (now destruct id).
  rewrite Hid, Hassign. cbn [map snd].
  assert (Hser : Array_map serialize_param [value_of_id id]
                 = ok [value_of_id id]) by (now destruct id).
  rewrite Hser.
  change (join " and " [quoted "id" ++ " = $1"]) with (quoted "id" ++ " = $1").
  unfold ok in Hq |- *. rewrite Hq. reflexivity.
Qed.

(** C10.  In a run of [getItemById] in which the client answered with rows,
    the statement it answered is the SELECT by id, it is the only thing done,
    and [getItemById] resolves with the first row: with nothing
    ([undefined]) when there is no row, it does not reject. *)
Theorem getItemById_first_row (tableName : string) (id : Id) (c c' : Client)
  (res : Completion (option Row)) (evs : list event)
  (sql : string) (ps : option (list value)) (queryResult : QueryResult) :
  getItemById client_query tableName id c = (res, c', evs) ->
  In (ClientQuery sql ps (ok queryResult)) evs ->
  sql = "select * from " ++ quoted tableName ++ " where " ++ quoted "id"
        ++ " = $1" /\
  ps = Some [value_of_id id] /\
  evs = [ClientQuery sql ps (ok queryResult)] /\
  res = ok (nth_error (rows queryResult) 0) /\
  (rows queryResult = [] -> res = ok None) /\
  (forall row rest, rows queryResult = row :: rest -> res = ok (Some row)).
Proof.
  unfold getItemById, await.
  change (select client_query tableName [("id", value_of_id id)] c)
    with (perform client_query
            (Select tableName [("id", value_of_id id)]) c).
  rewrite perform_execute.
  destruct (execute client_query
              (statement_of (Select tableName [("id", value_of_id id)])) c)
    as [[r1 c1] evs1] eqn:Hselect.
  apply execute_cases in Hselect.
  destruct Hselect
    as [(e & _ & -> & _ & ->)
       |[(sql0 & ps0 & e & _ & _ & -> & _ & ->)
        |[(sql0 & ps0 & ps' & e & _ & _ & _ & -> & ->)
         |(sql0 & ps0 & ps' & qr & Hst & Hmap & _ & -> & ->)]]];
    intros Hrun Hin.
  - injection Hrun as <- <- <-. contradiction.
  - injection Hrun as <- <- <-. destruct Hin as [H|[]]. discriminate.
  - injection Hrun as <- <- <-. destruct Hin as [H|[H|[]]]; discriminate.
  - unfold resolve in Hrun. injection Hrun as <- <- <-.
    destruct Hin as [H|[]]. injection H as <- <- <-.
    cbn [statement_of] in Hst.
    apply select_by_id_statement in Hst. destruct Hst as [-> ->].
    assert (Hser : Array_map serialize_param [value_of_id id]
                   = ok [value_of_id id]) by (now destruct id).
    rewrite Hser in Hmap. injection Hmap as <-.
    repeat split.
    + now intros ->.
    + now intros row rest ->.
Qed.

End StatementFacts.

(** C6, as the specification states it, fails: the text issued has its
    keywords in lower case, it is not the text of scenario 2. *)
Lemma update_scenario_counterexample :
  calls (snd (update scripted_query "users" [("age", VNumber 31)]
                [("id", VNumber 5)] []))
  <> [(scenario_update_text, Some [VNumber 31; VNumber 5])].
Proof. vm_compute. discriminate. Qed.

(** C5, as the specification states it, fails: the text issued has its
    keywords in lower case and no space after the comma of the SET list, it
    is not the text of scenario 5. *)
Lemma upsert_scenario_counterexample :
  calls (snd (upsert scripted_query "users"
                [("id", VNumber 1); ("name", VString "Bob")] ["id"] []))
  <> [(scenario_upsert_text, Some [VNumber 1; VString "Bob"])].
Proof. vm_compute. discriminate. Qed.

(** The conflict target is not checked: a name [checkName] refuses goes into
    the text. *)
Lemma upsert_statement_form_witness :
  checkName "id) do nothing --" = throw (IllegalIdentifier "id) do nothing --") /\
  exists r,
    splitUp [("id", VNumber 1); ("name", VString "Bob")] false 0 = ok r /\
    columns r = [quoted "id"; quoted "name"] /\
    variables r = ["$1"; "$2"] /\
    assignments r
    = map (fun cv => fst cv ++ " = " ++ snd cv)
        (combine (columns r) (variables r)) /\
    upsert scripted_query "users" [("id", VNumber 1); ("name", VString "Bob")]
      ["id) do nothing --"; "name"] []
    = query2 scripted_query
        ("insert into " ++ quoted "users"
         ++ " (" ++ join "," (columns r)
         ++ ") values (" ++ join "," (variables r)
         ++ ") on conflict (" ++ join "," ["id) do nothing --"; "name"]
         ++ ") do update set " ++ join "," (assignments r))
        (params r) [].
Proof.
  split; [reflexivity|].
  apply (proj1 (upsert_statement_form Scripted scripted_query "users"
                  [("id", VNumber 1); ("name", VString "Bob")]
                  ["id) do nothing --"; "name"] [])).
  - reflexivity.
  - repeat constructor.
Defined.

Lemma getItemById_first_row_witness :
  fst (fst (getItemById scripted_query "users" (IdNumber 5)
              [ok (mkQueryResult [])]))
  = ok None /\
  fst (fst (getItemById scripted_query "users" (IdString "u7")
              [ok (mkQueryResult [[("id", VString "u7")]; [("id", VNull)]])]))
  = ok (Some [("id", VString "u7")]).
Proof.
  split.
  - destruct (getItemById_first_row Scripted scripted_query "users"
                (IdNumber 5) [ok (mkQueryResult [])] []
                (fst (fst (getItemById scripted_query "users" (IdNumber 5)
                             [ok (mkQueryResult [])])))
                (snd (getItemById scripted_query "users" (IdNumber 5)
                        [ok (mkQueryResult [])]))
                ("select * from " ++ quoted "users" ++ " where " ++ quoted "id"
                 ++ " = $1")
                (Some [VNumber 5]) (mkQueryResult []))
      as (_ & _ & _ & _ & Hnone & _).
    + reflexivity.
    + simpl. auto.
    + apply Hnone. reflexivity.
  - destruct (getItemById_first_row Scripted scripted_query "users"
                (IdString "u7")
                [ok (mkQueryResult [[("id", VString "u7")]; [("id", VNull)]])]
                []
                (fst (fst (getItemById scripted_query "users" (IdString "u7")
                             [ok (mkQueryResult
                                    [[("id", VString "u7")];
                                     [("id", VNull)]])])))
                (snd (getItemById scripted_query "users" (IdString "u7")
                        [ok (mkQueryResult
                               [[("id", VString "u7")]; [("id", VNull)]])]))
                ("select * from " ++ quoted "users" ++ " where " ++ quoted "id"
                 ++ " = $1")
                (Some [VString "u7"])
                (mkQueryResult [[("id", VString "u7")]; [("id", VNull)]]))
      as (_ & _ & _ & _ & _ & Hsome).
    + reflexivity.
    + simpl. auto.
    + apply (Hsome [("id", VString "u7")] [[("id", VNull)]]). reflexivity.
Defined.

(** ** The batch helpers *)

Section BatchFacts.

Variable Client : Type.
Variable client_query :
  Client -> string -> option (list value) -> Completion QueryResult * Client.

Lemma await_resolved {A B} (m : Async Client A) (k : A -> Async Client B)
  (c c' : Client) (b : B) (evs : list event) :
  await m k c = (inr b, c', evs) ->
  exists a c1 evs1 evs2,
    m c = (inr a, c1, evs1) /\
    k a c1 = (inr b, c', evs2) /\
    evs = (evs1 ++ evs2)%list.
Proof.
  unfold await. destruct (m c) as [[[e|a] c1] evs1]; [discriminate|].
  destruct (k a c1) as [[r c2] evs2] eqn:Hk.
  intros H. injection H as -> -> <-.
  exists a, c1, evs1, evs2. auto.
Qed.

Lemma await_then {A B} (m : Async Client A) (k : A -> Async Client B)
  (c c1 : Client) (a : A) (evs1 : list event) :
  m c = (inr a, c1, evs1) ->
  await m k c =
  let '(r, c2, evs2) := k a c1 in (r, c2, (evs1 ++ evs2)%list).
Proof. unfold await. now intros ->. Qed.

Lemma await_rejected {A B} (m : Async Client A) (k : A -> Async Client B)
  (c c1 : Client) (e : exn) (evs1 : list event) :
  m c = (inl e, c1, evs1) ->
  await m k c = (inl e, c1, evs1).
Proof. unfold await. now intros ->. Qed.

(** A resolved [query] without parameters is one call of the client. *)
Lemma query_None_resolved (sql : string) (c c' : Client)
  (queryResult : QueryResult) (evs : list event) :
  query client_query sql None c = (inr queryResult, c', evs) ->
  calls evs = [(sql, None)].
Proof.
  rewrite query_None. unfold client_call.
  destruct (client_query c sql None) as [out c1].
  intros H. injection H as -> -> <-. reflexivity.
Qed.

(** A loop that came to its end ran its body on every element, in order. *)
Lemma for_of_resolved {A B} (body : A -> Async Client B)
  (P : A -> string * option (list value) -> Prop) :
  (forall x c b c' evs,
      body x c = (inr b, c', evs) ->
      exists call, calls evs = [call] /\ P x call) ->
  forall xs c u c' evs,
    for_of xs body c = (inr u, c', evs) ->
    Forall2 P xs (calls evs).
Proof.
  intros Hbody. induction xs as [|x xs IH]; intros c u c' evs H.
  - cbn [for_of] in H. unfold resolve in H. injection H as <- <- <-.
    constructor.
  - cbn [for_of] in H. apply await_resolved in H.
    destruct H as (b & c1 & evs1 & evs2 & Hx & Hxs & ->).
    destruct (Hbody x c b c1 evs1 Hx) as (call & Hcall & HP).
    rewrite calls_app, Hcall. constructor; [exact HP|].
    exact (IH c1 u c' evs2 Hxs).
Qed.

(** A body that rejects ends the loop: the elements after it are not
    touched. *)
Lemma for_of_rejected {A B} (body : A -> Async Client B) (x : A)
  (post : list A) (e : exn) :
  forall pre c c1 c2 evs1 evs2,
    for_of pre body c = (inr tt, c1, evs1) ->
    body x c1 = (inl e, c2, evs2) ->
    for_of (pre ++ x :: post)%list body c = (inl e, c2, (evs1 ++ evs2)%list).
Proof.
  induction pre as [|y pre IH]; intros c c1 c2 evs1 evs2 Hpre Hx.
  - cbn [for_of] in Hpre. unfold resolve in Hpre.
    injection Hpre as <- <-. cbn [app for_of].
    now rewrite (await_rejected _ _ _ _ _ _ Hx).
  - cbn [for_of] in Hpre. apply await_resolved in Hpre.
    destruct Hpre as (b & c0 & evs0 & evs1' & Hy & Hpre & ->).
    cbn [app for_of]. rewrite (await_then _ _ _ _ _ _ Hy).
    rewrite (IH c0 c1 c2 evs1' evs2 Hpre Hx).
    now rewrite app_assoc.
Qed.

(** The shape [writeRows] and [deleteRows] share, when it resolves: begin,
    the deferral, one call per element in order, commit. *)
Lemma batch_resolved {A B} (body : A -> Async Client B)
  (P : A -> string * option (list value) -> Prop) :
  (forall x c b c' evs,
      body x c = (inr b, c', evs) ->
      exists call, calls evs = [call] /\ P x call) ->
  forall xs c c' evs,
    await (query client_query "begin" None) (fun _ =>
    await (query client_query "SET CONSTRAINTS fk_parent DEFERRED" None) (fun _ =>
    await (for_of xs body) (fun _ =>
    await (query client_query "commit" None) (fun _ => resolve tt)))) c
    = (inr tt, c', evs) ->
    exists stmts,
      calls evs = (begin_call :: defer_call :: stmts ++ [commit_call])%list /\
      Forall2 P xs stmts.
Proof.
  intros Hbody xs c c' evs H.
  apply await_resolved in H.
  destruct H as (q1 & c1 & evs1 & evs1' & Hbegin & H & ->).
  apply await_resolved in H.
  destruct H as (q2 & c2 & evs2 & evs2' & Hdefer & H & ->).
  apply await_resolved in H.
  destruct H as (u & c3 & evs3 & evs3' & Hloop & H & ->).
  apply await_resolved in H.
  destruct H as (q4 & c4 & evs4 & evs4' & Hcommit & H & ->).
  unfold resolve in H. injection H as <- <-.
  exists (calls evs3). rewrite !calls_app.
  rewrite (query_None_resolved _ _ _ _ _ Hbegin),
    (query_None_resolved _ _ _ _ _ Hdefer),
    (query_None_resolved _ _ _ _ _ Hcommit).
  split; [reflexivity|].
  exact (for_of_resolved body P Hbody xs c2 u c3 evs3 Hloop).
Qed.

(** The same shape when the body rejects on an element: the batch rejects
    with the error of the body, nothing is done after it, and there is no
    commit. *)
Lemma batch_rejected {A B} (body : A -> Async Client B)
  (P : A -> string * option (list value) -> Prop) :
  (forall x c b c' evs,
      body x c = (inr b, c', evs) ->
      exists call, calls evs = [call] /\ P x call) ->
  (forall x c e c' evs,
      body x c = (inl e, c', evs) ->
      calls evs = [] \/ exists call, calls evs = [call] /\ P x call) ->
  (forall x call, P x call -> call <> commit_call) ->
  forall pre x post c c1 c2 c3 c4 q1 q2 evs1 evs2 evs3 evs4 e,
    query client_query "begin" None c = (inr q1, c1, evs1) ->
    query client_query "SET CONSTRAINTS fk_parent DEFERRED" None c1
    = (inr q2, c2, evs2) ->
    for_of pre body c2 = (inr tt, c3, evs3) ->
    body x c3 = (inl e, c4, evs4) ->
    await (query client_query "begin" None) (fun _ =>
    await (query client_query "SET CONSTRAINTS fk_parent DEFERRED" None) (fun _ =>
    await (for_of (pre ++ x :: post)%list body) (fun _ =>
    await (query client_query "commit" None) (fun _ => resolve tt)))) c
    = (inl e, c4, (evs1 ++ evs2 ++ evs3 ++ evs4)%list) /\
    calls (evs1 ++ evs2 ++ evs3 ++ evs4)
    = (begin_call :: defer_call :: calls evs3 ++ calls evs4)%list /\
    Forall2 P pre (calls evs3) /\
    (calls evs4 = [] \/ exists call, calls evs4 = [call] /\ P x call) /\
    ~ In commit_call (calls (evs1 ++ evs2 ++ evs3 ++ evs4)).
Proof.
  intros Hbody Hfail HP pre x post c c1 c2 c3 c4 q1 q2 evs1 evs2 evs3 evs4 e
    Hbegin Hdefer Hpre Hx.
  assert (Hcalls :
    calls (evs1 ++ evs2 ++ evs3 ++ evs4)
    = (begin_call :: defer_call :: calls evs3 ++ calls evs4)%list).
  { rewrite !calls_app.
    now rewrite (query_None_resolved _ _ _ _ _ Hbegin),
      (query_None_resolved _ _ _ _ _ Hdefer). }
  assert (Hpre_calls : Forall2 P pre (calls evs3))
    by exact (for_of_resolved body P Hbody pre c2 tt c3 evs3 Hpre).
  pose proof (Hfail x c3 e c4 evs4 Hx) as Hx_calls.
  split; [|split; [exact Hcalls|split; [exact Hpre_calls|split;
                                         [exact Hx_calls|]]]].
  - rewrite (await_then _ _ _ _ _ _ Hbegin).
    rewrite (await_then _ _ _ _ _ _ Hdefer).
    rewrite (await_rejected _ _ _ _ _ _
               (for_of_rejected body x post e pre c2 c3 c4 evs3 evs4 Hpre Hx)).
    reflexivity.
  - rewrite Hcalls. intros [H|[H|H]]; try discriminate.
    apply in_app_or in H. destruct H as [H|H].
    + clear Hcalls Hpre. induction Hpre_calls as [|y call ys cs Hy _ IH].
      * contradiction.
      * destruct H as [->|H]; [now apply (HP y commit_call)|now apply IH].
    + destruct Hx_calls as [Hnil|(call & Hone & Hcall)].
      * rewrite Hnil in H. contradiction.
      * rewrite Hone in H. destruct H as [->|[]].
        now apply (HP x commit_call).
Qed.

End BatchFacts.

Lemma issued_not_commit (statement : Completion (string * list value))
  (call : string * option (list value)) :
  issued statement call -> call <> commit_call.
Proof. intros (sql & params & params' & _ & _ & ->). discriminate. Qed.

Lemma delete_by_id_not_commit (tableName : string) (id : Id)
  (call : string * option (list value)) :
  call = delete_by_id_call tableName id -> call <> commit_call.
Proof. intros ->. discriminate. Qed.

Lemma delete_by_id_statement (tableName : string) (id : Id) (sql : string)
  (ps : list value) :
  delete_statement tableName [("id", value_of_id id)] = ok (sql, ps) ->
  sql = "delete from " ++ quoted tableName ++ " where " ++ quoted "id" ++ " = $1"
  /\ ps = [value_of_id id].
Proof.
  unfold delete_statement.
  rewrite (splitUp_valid true 0 [("id", value_of_id id)])
    by (repeat constructor).
  cbn [cbind ok]. destruct (checkName tableName) as [e|name] eqn:Hname;
    [discriminate|].
  apply checkName_ok_inv in Hname. destruct Hname as [-> _].
  cbn [cbind ok whereSection params].
  intros H. injection H as <- <-. now destruct id.
Qed.

Section BatchSequence.

Variable Client : Type.
Variable client_query :
  Client -> string -> option (list value) -> Completion QueryResult * Client.

Lemma upsert_resolved_call (tableName : string) (unique : list string)
  (row : Row) (c : Client) (b : list Row) (c' : Client) (evs : list event) :
  upsert client_query tableName row unique c = (inr b, c', evs) ->
  exists call,
    calls evs = [call] /\ issued (upsert_statement tableName row unique) call.
Proof.
  change (upsert client_query tableName row unique c)
    with (perform client_query (Upsert tableName row unique) c).
  rewrite perform_execute. intros H. apply execute_cases in H.
  destruct H as [(e & _ & H & _)
                |[(sql & ps & e & _ & _ & H & _)
                 |[(sql & ps & ps' & e & _ & _ & _ & H & _)
                  |(sql & ps & ps' & qr & Hst & Hmap & _ & _ & ->)]]];
    try discriminate.
  exists (sql, Some ps'). split; [reflexivity|].
  exists sql, ps, ps'. auto.
Qed.

Lemma upsert_rejected_calls (tableName : string) (unique : list string)
  (row : Row) (c : Client) (e : exn) (c' : Client) (evs : list event) :
  upsert client_query tableName row unique c = (inl e, c', evs) ->
  calls evs = [] \/
  exists call,
    calls evs = [call] /\ issued (upsert_statement tableName row unique) call.
Proof.
  change (upsert client_query tableName row unique c)
    with (perform client_query (Upsert tableName row unique) c).
  rewrite perform_execute. intros H. apply execute_cases in H.
  destruct H as [(e0 & _ & _ & _ & ->)
                |[(sql & ps & e0 & _ & _ & _ & _ & ->)
                 |[(sql & ps & ps' & e0 & Hst & Hmap & _ & _ & ->)
                  |(sql & ps & ps' & qr & _ & _ & _ & H & _)]]];
    try discriminate; try (now left).
  right. exists (sql, Some ps'). split; [reflexivity|].
  exists sql, ps, ps'. auto.
Qed.

Lemma delete_resolved_call (tableName : string) (id : Id) (c : Client)
  (b : list Row) (c' : Client) (evs : list event) :
  delete client_query tableName [("id", value_of_id id)] c = (inr b, c', evs) ->
  exists call, calls evs = [call] /\ call = delete_by_id_call tableName id.
Proof.
  change (delete client_query tableName [("id", value_of_id id)] c)
    with (perform client_query (Delete tableName [("id", value_of_id id)]) c).
  rewrite perform_execute. intros H. apply execute_cases in H.
  destruct H as [(e & _ & H & _)
                |[(sql & ps & e & _ & _ & H & _)
                 |[(sql & ps & ps' & e & _ & _ & _ & H & _)
                  |(sql & ps & ps' & qr & Hst & Hmap & _ & _ & ->)]]];
    try discriminate.
  apply delete_by_id_statement in Hst. destruct Hst as [-> ->].
  assert (Hser : Array_map serialize_param [value_of_id id]
                 = ok [value_of_id id]) by (now destruct id).
  rewrite Hser in Hmap. injection Hmap as <-.
  eexists. split; reflexivity.
Qed.

Lemma delete_rejected_calls (tableName : string) (id : Id) (c : Client)
  (e : exn) (c' : Client) (evs : list event) :
  delete client_query tableName [("id", value_of_id id)] c = (inl e, c', evs) ->
  calls evs = [] \/
  exists call, calls evs = [call] /\ call = delete_by_id_call tableName id.
Proof.
  change (delete client_query tableName [("id", value_of_id id)] c)
    with (perform client_query (Delete tableName [("id", value_of_id id)]) c).
  rewrite perform_execute. intros H. apply execute_cases in H.
  destruct H as [(e0 & _ & _ & _ & ->)
                |[(sql & ps & e0 & _ & _ & _ & _ & ->)
                 |[(sql & ps & ps' & e0 & Hst & Hmap & _ & _ & ->)
                  |(sql & ps & ps' & qr & _ & _ & _ & H & _)]]];
    try discriminate; try (now left).
  right.
  apply delete_by_id_statement in Hst. destruct Hst as [-> ->].
  assert (Hser : Array_map serialize_param [value_of_id id]
                 = ok [value_of_id id]) by (now destruct id).
  rewrite Hser in Hmap. injection Hmap as <-.
  eexists. split; reflexivity.
Qed.

(** C9.  The calls of the client that [writeRows] and [deleteRows] make.
    When the batch resolves they are: [begin], then
    [SET CONSTRAINTS fk_parent DEFERRED], then for every row (id), in input
    order, the one statement of its upsert (of its delete by id), then
    [commit].  When the upsert (delete) of one element rejects, the batch
    rejects with its error, what was done is what was done up to there, the
    elements after it are not touched, and there is no [commit]. *)
Theorem batch_statement_sequence (tableName : string) (unique : list string) :
  (forall rows c c' evs,
      writeRows client_query tableName rows unique c = (ok tt, c', evs) ->
      exists stmts,
        calls evs = (begin_call :: defer_call :: stmts ++ [commit_call])%list /\
        Forall2 (fun row call =>
                   issued (upsert_statement tableName row unique) call)
          rows stmts) /\
  (forall pre row post c c1 c2 c3 c4 q1 q2 evs1 evs2 evs3 evs4 e,
      query client_query "begin" None c = (ok q1, c1, evs1) ->
      query client_query "SET CONSTRAINTS fk_parent DEFERRED" None c1
      = (ok q2, c2, evs2) ->
      for_of pre (fun row => upsert client_query tableName row unique) c2
      = (ok tt, c3, evs3) ->
      upsert client_query tableName row unique c3 = (throw e, c4, evs4) ->
      writeRows client_query tableName (pre ++ row :: post)%list unique c
      = (throw e, c4, (evs1 ++ evs2 ++ evs3 ++ evs4)%list) /\
      calls (evs1 ++ evs2 ++ evs3 ++ evs4)
      = (begin_call :: defer_call :: calls evs3 ++ calls evs4)%list /\
      Forall2 (fun row call =>
                 issued (upsert_statement tableName row unique) call)
        pre (calls evs3) /\
      (calls evs4 = [] \/
       exists call,
         calls evs4 = [call] /\
         issued (upsert_statement tableName row unique) call) /\
      ~ In commit_call (calls (evs1 ++ evs2 ++ evs3 ++ evs4))) /\
  (forall ids c c' evs,
      deleteRows client_query tableName ids c = (ok tt, c', evs) ->
      calls evs
      = (begin_call :: defer_call
         :: map (delete_by_id_call tableName) ids ++ [commit_call])%list) /\
  (forall pre id post c c1 c2 c3 c4 q1 q2 evs1 evs2 evs3 evs4 e,
      query client_query "begin" None c = (ok q1, c1, evs1) ->
      query client_query "SET CONSTRAINTS fk_parent DEFERRED" None c1
      = (ok q2, c2, evs2) ->
      for_of pre
        (fun id => delete client_query tableName [("id", value_of_id id)]) c2
      = (ok tt, c3, evs3) ->
      delete client_query tableName [("id", value_of_id id)] c3
      = (throw e, c4, evs4) ->
      deleteRows client_query tableName (pre ++ id :: post)%list c
      = (throw e, c4, (evs1 ++ evs2 ++ evs3 ++ evs4)%list) /\
      calls (evs1 ++ evs2 ++ evs3 ++ evs4)
      = (begin_call :: defer_call
         :: map (delete_by_id_call tableName) pre ++ calls evs4)%list /\
      (calls evs4 = [] \/ calls evs4 = [delete_by_id_call tableName id]) /\
      ~ In commit_call (calls (evs1 ++ evs2 ++ evs3 ++ evs4))).
Proof.
  split; [|split; [|split]].
  - intros rows c c' evs H.
    exact (batch_resolved Client client_query
             (fun row => upsert client_query tableName row unique)
             (fun row call => issued (upsert_statement tableName row unique) call)
             (upsert_resolved_call tableName unique) rows c c' evs H).
  - intros pre row post c c1 c2 c3 c4 q1 q2 evs1 evs2 evs3 evs4 e
      Hbegin Hdefer Hpre Hrow.
    exact (batch_rejected Client client_query
             (fun row => upsert client_query tableName row unique)
             (fun row call => issued (upsert_statement tableName row unique) call)
             (upsert_resolved_call tableName unique)
             (upsert_rejected_calls tableName unique)
             (fun row call => issued_not_commit _ call)
             pre row post c c1 c2 c3 c4 q1 q2 evs1 evs2 evs3 evs4 e
             Hbegin Hdefer Hpre Hrow).
  - intros ids c c' evs H.
    destruct (batch_resolved Client client_query
                (fun id => delete client_query tableName
                             [("id", value_of_id id)])
                (fun id call => call = delete_by_id_call tableName id)
                (delete_resolved_call tableName) ids c c' evs H)
      as (stmts & -> & Hall).
    do 3 f_equal. clear H. induction Hall as [|id call ids cs -> _ IH].
    + reflexivity.
    + cbn [map]. now rewrite IH.
  - intros pre id post c c1 c2 c3 c4 q1 q2 evs1 evs2 evs3 evs4 e
      Hbegin Hdefer Hpre Hid.
    destruct (batch_rejected Client client_query
                (fun id => delete client_query tableName
                             [("id", value_of_id id)])
                (fun id call => call = delete_by_id_call tableName id)
                (delete_resolved_call tableName)
                (delete_rejected_calls tableName)
                (delete_by_id_not_commit tableName)
                pre id post c c1 c2 c3 c4 q1 q2 evs1 evs2 evs3 evs4 e
                Hbegin Hdefer Hpre Hid)
      as (Hrun & Hcalls & Hall & Hlast & Hcommit).
    assert (Hpre_calls : calls evs3 = map (delete_by_id_call tableName) pre).
    { clear - Hall. induction Hall as [|x call xs cs -> _ IH].
      - reflexivity.
      - cbn [map]. now rewrite IH. }
    split; [exact Hrun|]. split; [now rewrite Hcalls, Hpre_calls|].
    split; [|exact Hcommit].
    destruct Hlast as [Hnil|(call & Hone & ->)]; [now left|now right].
Qed.

End BatchSequence.

Lemma batch_statement_sequence_witness :
  let e := DriverError "23503" "foreign key violation" in
  let answers := [ok (mkQueryResult []); ok (mkQueryResult []);
                  ok (mkQueryResult []); throw e] in
  let r1 := [("id", VNumber 1)] in
  let r2 := [("id", VNumber 2)] in
  let r3 := [("id", VNumber 3)] in
  (exists stmts,
      calls (snd (writeRows scripted_query "users" [r1; r2] ["id"] []))
      = (begin_call :: defer_call :: stmts ++ [commit_call])%list /\
      Forall2 (fun row call => issued (upsert_statement "users" row ["id"]) call)
        [r1; r2] stmts) /\
  (writeRows scripted_query "users" [r1; r2; r3] ["id"] answers
   = (throw e, [],
      snd (writeRows scripted_query "users" [r1; r2; r3] ["id"] answers)) /\
   List.length
     (calls (snd (writeRows scripted_query "users" [r1; r2; r3] ["id"] answers)))
   = 4 /\
   ~ In commit_call
       (calls (snd (writeRows scripted_query "users" [r1; r2; r3] ["id"]
                      answers)))) /\
  calls (snd (deleteRows scripted_query "users" [IdNumber 1; IdString "b"] []))
  = [begin_call; defer_call; delete_by_id_call "users" (IdNumber 1);
     delete_by_id_call "users" (IdString "b"); commit_call] /\
  (deleteRows scripted_query "users" [IdNumber 1; IdNumber 2; IdNumber 3]
     answers
   = (throw e, [],
      snd (deleteRows scripted_query "users"
             [IdNumber 1; IdNumber 2; IdNumber 3] answers)) /\
   calls (snd (deleteRows scripted_query "users"
                 [IdNumber 1; IdNumber 2; IdNumber 3] answers))
   = [begin_call; defer_call; delete_by_id_call "users" (IdNumber 1);
      delete_by_id_call "users" (IdNumber 2)] /\
   ~ In commit_call
       (calls (snd (deleteRows scripted_query "users"
                      [IdNumber 1; IdNumber 2; IdNumber 3] answers)))).
Proof.
  intros e answers r1 r2 r3.
  destruct (batch_statement_sequence Scripted scripted_query "users" ["id"])
    as (Hw_ok & Hw_fail & Hd_ok & Hd_fail).
  split; [|split; [|split]].
  - apply (Hw_ok [r1; r2] [] []
             (snd (writeRows scripted_query "users" [r1; r2] ["id"] []))
             eq_refl).
  - destruct (Hw_fail [r1] r2 [r3] answers
                (tl answers) (tl (tl answers)) (tl (tl (tl answers))) []
                (mkQueryResult []) (mkQueryResult [])
                (snd (query scripted_query "begin" None answers))
                (snd (query scripted_query "SET CONSTRAINTS fk_parent DEFERRED"
                        None (tl answers)))
                (snd (upsert scripted_query "users" r1 ["id"]
                        (tl (tl answers))))
                (snd (upsert scripted_query "users" r2 ["id"]
                        (tl (tl (tl answers)))))
                e eq_refl eq_refl eq_refl eq_refl)
      as (Hrun & Hcalls & _ & _ & Hcommit).
    split; [exact Hrun|]. split; [reflexivity|exact Hcommit].
  - apply (Hd_ok [IdNumber 1; IdString "b"] [] []
             (snd (deleteRows scripted_query "users"
                     [IdNumber 1; IdString "b"] []))
             eq_refl).
  - destruct (Hd_fail [IdNumber 1] (IdNumber 2) [IdNumber 3] answers
                (tl answers) (tl (tl answers)) (tl (tl (tl answers))) []
                (mkQueryResult []) (mkQueryResult [])
                (snd (query scripted_query "begin" None answers))
                (snd (query scripted_query "SET CONSTRAINTS fk_parent DEFERRED"
                        None (tl answers)))
                (snd (delete scripted_query "users" [("id", VNumber 1)]
                        (tl (tl answers))))
                (snd (delete scripted_query "users" [("id", VNumber 2)]
                        (tl (tl (tl answers)))))
                e eq_refl eq_refl eq_refl eq_refl)
      as (Hrun & Hcalls & _ & Hcommit).
    split; [exact Hrun|]. split; [exact Hcalls|exact Hcommit].
Defined.

(** ** Batches against a client that answers every statement *)

Section BatchCompletes.

Variable Client : Type.
Variable client_query :
  Client -> string -> option (list value) -> Completion QueryResult * Client.

(** The client resolves whatever it is asked. *)
Hypothesis client_resolves :
  forall c sql params,
    exists queryResult c', client_query c sql params = (ok queryResult, c').

Lemma query_None_resolves (sql : string) (c : Client) :
  exists queryResult c' evs,
    query client_query sql None c = (ok queryResult, c', evs).
Proof.
  rewrite query_None. unfold client_call.
  destruct (client_resolves c sql None) as (queryResult & c' & ->).
  eexists. eexists. eexists. reflexivity.
Qed.

Lemma execute_resolves (sql : string) (ps : list value) (c : Client) :
  dates_valid ps ->
  exists b c' evs,
    execute client_query (ok (sql, ps)) c = (ok b, c', evs).
Proof.
  intros Hdates.
  destruct (Array_map_serialize_param ps Hdates) as (ps' & Hmap & _).
  cbn [execute ok]. rewrite query2_cases, Hmap. unfold ok.
  destruct (client_resolves c sql (Some ps')) as (queryResult & c' & ->).
  eexists. eexists. eexists. reflexivity.
Qed.

Lemma for_of_resolves {A B} (body : A -> Async Client B) (xs : list A) :
  Forall (fun x => forall c, exists b c' evs, body x c = (ok b, c', evs)) xs ->
  forall c, exists c' evs, for_of xs body c = (ok tt, c', evs).
Proof.
  induction 1 as [|x xs Hx _ IH]; intros c.
  - exists c, []. reflexivity.
  - destruct (Hx c) as (b & c1 & evs1 & Hbody).
    destruct (IH c1) as (c2 & evs2 & Hrest).
    exists c2, (evs1 ++ evs2)%list. cbn [for_of].
    rewrite (await_then _ _ _ _ _ _ _ Hbody). now rewrite Hrest.
Qed.

Lemma batch_resolves {A B} (body : A -> Async Client B) (xs : list A) :
  Forall (fun x => forall c, exists b c' evs, body x c = (ok b, c', evs)) xs ->
  forall c,
  exists c' evs,
    await (query client_query "begin" None) (fun _ =>
    await (query client_query "SET CONSTRAINTS fk_parent DEFERRED" None) (fun _ =>
    await (for_of xs body) (fun _ =>
    await (query client_query "commit" None) (fun _ => resolve tt)))) c
    = (ok tt, c', evs).
Proof.
  intros Hbody c.
  destruct (query_None_resolves "begin" c) as (q1 & c1 & evs1 & H1).
  destruct (query_None_resolves "SET CONSTRAINTS fk_parent DEFERRED" c1)
    as (q2 & c2 & evs2 & H2).
  destruct (for_of_resolves body xs Hbody c2) as (c3 & evs3 & H3).
  destruct (query_None_resolves "commit" c3) as (q4 & c4 & evs4 & H4).
  rewrite (await_then _ _ _ _ _ _ _ H1), (await_then _ _ _ _ _ _ _ H2),
    (await_then _ _ _ _ _ _ _ H3), (await_then _ _ _ _ _ _ _ H4).
  eexists. eexists. reflexivity.
Qed.

(** X25.  Against a client that resolves whatever it is asked, with a valid
    table name and, in every row, valid column names and no [Date] without a
    serialization, [writeRows] comes to its [commit] and resolves. *)
Lemma writeRows_resolves (tableName : string) (rows : list Row)
  (unique : list string) (c : Client) :
  valid_name tableName = true ->
  Forall names_valid rows ->
  Forall (fun row => dates_valid (map snd row)) rows ->
  exists c' evs,
    writeRows client_query tableName rows unique c = (ok tt, c', evs).
Proof.
  intros Htable Hnames Hdates.
  apply (batch_resolves
           (fun row => upsert client_query tableName row unique) rows).
  rewrite Forall_forall in *. intros row Hin c0.
  change (upsert client_query tableName row unique c0)
    with (perform client_query (Upsert tableName row unique) c0).
  rewrite perform_execute. cbn [statement_of]. unfold upsert_statement.
  rewrite (splitUp_valid false 0 row (Hnames row Hin)).
  cbn [cbind ok]. rewrite (checkName_valid tableName Htable).
  cbn [cbind ok params]. rewrite filter_parameterised_false.
  apply execute_resolves. exact (Hdates row Hin).
Qed.

(** X26.  Against a client that resolves whatever it is asked, with a valid
    table name, [deleteRows] comes to its [commit] and resolves, whatever
    the ids are. *)
Lemma deleteRows_resolves (tableName : string) (ids : list Id) (c : Client) :
  valid_name tableName = true ->
  exists c' evs,
    deleteRows client_query tableName ids c = (ok tt, c', evs).
Proof.
  intros Htable.
  apply (batch_resolves
           (fun id => delete client_query tableName [("id", value_of_id id)])
           ids).
  rewrite Forall_forall. intros id _ c0.
  change (delete client_query tableName [("id", value_of_id id)] c0)
    with (perform client_query
            (Delete tableName [("id", value_of_id id)]) c0).
  rewrite perform_execute. cbn [statement_of]. unfold delete_statement.
  rewrite (splitUp_valid true 0 [("id", value_of_id id)])
    by (repeat constructor).
  cbn [cbind ok]. rewrite (checkName_valid tableName Htable).
  cbn [cbind ok params]. apply execute_resolves.
  destruct id; repeat constructor.
Qed.

End BatchCompletes.

(** * Further properties of the code *)

(** ** What checkName lets through *)

Lemma spec_char_not_dquote (c : ascii) :
  spec_char c = true -> c <> dquote_char.
Proof. intros H ->. vm_compute in H. discriminate. Qed.

Lemma valid_name_chars (name : string) :
  valid_name name = true ->
  1 <= String.length name <= 31 /\
  forall c, In c (list_ascii_of_string name) -> spec_char c = true.
Proof.
  intros H. apply valid_name_iff in H.
  destruct H as (c & rest & -> & Hc & Hlen & Hall). simpl. split; [lia|].
  intros x [<-|Hin].
  - unfold spec_char. now rewrite Hc.
  - rewrite Forall_forall in Hall. now apply Hall.
Qed.

(** X1.  [checkName] decides the pattern: a name that matches is returned
    as it is, any other name (the empty one too) throws the error that
    carries it; there is no third outcome. *)
Theorem checkName_decides (name : string) :
  ((matches_identifier_pattern name /\ checkName name = ok name) \/
   (~ matches_identifier_pattern name /\
    checkName name = throw (IllegalIdentifier name))) /\
  checkName EmptyString = throw (IllegalIdentifier EmptyString).
Proof.
  split; [|reflexivity].
  destruct (valid_name name) eqn:E.
  - left. split; [now apply valid_name_iff|now apply checkName_valid].
  - right. split; [|now apply checkName_invalid].
    intros H. apply valid_name_iff in H. congruence.
Qed.

(** X2.  A name [checkName] returns is the name it was given, has between 1
    and 31 characters, all of them letters, digits or underscores: no double
    quote, so it cannot end the quoted identifier it is put in. *)
Theorem checkName_accepted_chars (name r : string) :
  checkName name = ok r ->
  r = name /\
  1 <= String.length name <= 31 /\
  forall c,
    In c (list_ascii_of_string name) ->
    spec_char c = true /\ c <> dquote_char.
Proof.
  intros H. apply checkName_ok_inv in H. destruct H as [-> Hvalid].
  split; [reflexivity|].
  destruct (valid_name_chars name Hvalid) as [Hlen Hall].
  split; [exact Hlen|].
  intros c Hin. split; [now apply Hall|].
  apply spec_char_not_dquote. now apply Hall.
Qed.

Lemma checkName_accepted_chars_witness :
  checkName "fk_parent" = ok "fk_parent" /\
  1 <= String.length "fk_parent" <= 31 /\
  forall c,
    In c (list_ascii_of_string "fk_parent") ->
    spec_char c = true /\ c <> dquote_char.
Proof.
  split; [reflexivity|].
  apply (checkName_accepted_chars "fk_parent" "fk_parent"). reflexivity.
Defined.

(** ** splitUp: errors and invariants *)

Lemma names_valid_or_first_illegal (fields : list (string * value)) :
  names_valid fields \/
  exists pre key v post,
    fields = (pre ++ (key, v) :: post)%list /\
    names_valid pre /\
    valid_name key = false.
Proof.
  induction fields as [|[key v] rest IH].
  - left. constructor.
  - destruct (valid_name key) eqn:Hkey.
    + destruct IH as [Hrest|(pre & key' & v' & post & -> & Hpre & Hkey')].
      * left. now apply names_valid_cons.
      * right. exists ((key, v) :: pre), key', v', post.
        split; [reflexivity|]. split; [|exact Hkey'].
        now apply names_valid_cons.
    + right. exists [], key, v, rest. repeat split; [constructor|exact Hkey].
Qed.

Lemma splitUp_ok_names_valid (fields : list (string * value)) (isWhere : bool)
  (offset : nat) (r : SplitUpResult) :
  splitUp fields isWhere offset = ok r -> names_valid fields.
Proof.
  intros H.
  destruct (names_valid_or_first_illegal fields)
    as [Hvalid|(pre & key & v & post & -> & Hpre & Hkey)]; [exact Hvalid|].
  rewrite (splitUp_illegal isWhere offset pre post key v Hpre Hkey) in H.
  discriminate.
Qed.

(** X3.  [splitUp] has two outcomes, in either mode and at any offset: every
    column name is valid and it returns a fragment, or it throws the error
    of the first column name, in iteration order, that is not valid. *)
Theorem splitUp_outcome (fields : list (string * value)) (isWhere : bool)
  (offset : nat) :
  (names_valid fields /\ exists r, splitUp fields isWhere offset = ok r) \/
  (exists pre key v post,
      fields = (pre ++ (key, v) :: post)%list /\
      names_valid pre /\
      valid_name key = false /\
      splitUp fields isWhere offset = throw (IllegalIdentifier key)).
Proof.
  destruct (names_valid_or_first_illegal fields)
    as [Hvalid|(pre & key & v & post & -> & Hpre & Hkey)].
  - left. split; [exact Hvalid|].
    eexists. apply (splitUp_valid isWhere offset fields Hvalid).
  - right. exists pre, key, v, post. repeat split; try assumption.
    now apply splitUp_illegal.
Qed.

(** X4.  In a fragment [splitUp] returned, every column is a column name of
    the mapping between double quotes, the name being a valid identifier
    without a double quote in it; and every assignment starts with such a
    quoted name. *)
Theorem splitUp_quoted_columns (fields : list (string * value))
  (isWhere : bool) (offset : nat) (r : SplitUpResult) :
  splitUp fields isWhere offset = ok r ->
  Forall (fun column =>
            exists key,
              In key (map fst fields) /\
              column = quoted key /\
              valid_name key = true /\
              ~ In dquote_char (list_ascii_of_string key))
    (columns r) /\
  Forall (fun assignment =>
            exists key rest,
              In key (map fst fields) /\
              assignment = quoted key ++ rest /\
              valid_name key = true)
    (assignments r).
Proof.
  intros H. pose proof (splitUp_ok_names_valid _ _ _ _ H) as Hvalid.
  rewrite (splitUp_valid isWhere offset fields Hvalid) in H.
  injection H as <-. cbn [columns assignments]. split.
  - rewrite Forall_forall. intros column Hin.
    apply in_map_iff in Hin. destruct Hin as ([key v] & <- & Hin).
    apply filter_In in Hin. destruct Hin as [Hin _].
    unfold names_valid in Hvalid. rewrite Forall_forall in Hvalid.
    pose proof (Hvalid (key, v) Hin) as Hkey. cbn [fst] in *.
    exists key. split; [apply in_map_iff; now exists (key, v)|].
    split; [reflexivity|]. split; [exact Hkey|].
    intros Hq. destruct (valid_name_chars key Hkey) as [_ Hall].
    now apply (spec_char_not_dquote dquote_char (Hall _ Hq)).
  - generalize (offset + 1). clear offset.
    induction fields as [|[key v] rest IH]; intros k; cbn [assignments_from].
    + constructor.
    + apply names_valid_cons in Hvalid. destruct Hvalid as [Hkey Hrest].
      assert (Htail : forall k',
                 Forall (fun assignment =>
                           exists key0 rest0,
                             In key0 (map fst ((key, v) :: rest)) /\
                             assignment = quoted key0 ++ rest0 /\
                             valid_name key0 = true)
                   (assignments_from isWhere k' rest)).
      { intros k'. eapply Forall_impl; [|apply (IH Hrest k')].
        intros a (key0 & rest0 & Hin & -> & Hk).
        exists key0, rest0. split; [right; exact Hin|auto]. }
      destruct (isWhere && is_null v); constructor; try apply Htail.
      * exists key, " is null". split; [left; reflexivity|auto].
      * exists key, (" = " ++ placeholder k). split; [left; reflexivity|auto].
Qed.

Lemma splitUp_quoted_columns_witness :
  exists r,
    splitUp [("a", VNumber 1); ("b", VNull)] true 0 = ok r /\
    Forall (fun column =>
              exists key,
                In key ["a"; "b"] /\
                column = quoted key /\
                valid_name key = true /\
                ~ In dquote_char (list_ascii_of_string key))
      (columns r) /\
    Forall (fun assignment =>
              exists key rest,
                In key ["a"; "b"] /\
                assignment = quoted key ++ rest /\
                valid_name key = true)
      (assignments r).
Proof.
  eexists. split; [reflexivity|].
  apply (splitUp_quoted_columns [("a", VNumber 1); ("b", VNull)] true 0).
  reflexivity.
Defined.

(** X5.  The lists of a fragment keep step: as many columns as placeholders
    as parameters, one assignment per entry of the mapping, never more
    parameters than entries, and outside WHERE mode exactly as many. *)
Theorem splitUp_lengths (fields : list (string * value)) (isWhere : bool)
  (offset : nat) (r : SplitUpResult) :
  splitUp fields isWhere offset = ok r ->
  List.length (columns r) = List.length (params r) /\
  List.length (variables r) = List.length (params r) /\
  List.length (assignments r) = List.length fields /\
  List.length (params r) <= List.length fields /\
  (isWhere = false -> List.length (params r) = List.length fields) /\
  (isWhere = false -> whereSection r = EmptyString).
Proof.
  intros H. pose proof (splitUp_ok_names_valid _ _ _ _ H) as Hvalid.
  rewrite (splitUp_valid isWhere offset fields Hvalid) in H.
  injection H as <-. cbn [columns variables params assignments whereSection].
  rewrite !length_map, length_seq, length_assignments_from.
  repeat split.
  - apply filter_length_le.
  - intros ->. now rewrite filter_parameterised_false.
  - now intros ->.
Qed.

Lemma splitUp_lengths_witness :
  exists r,
    splitUp [("a", VNumber 1); ("b", VNull); ("c", VNull)] true 4 = ok r /\
    List.length (columns r) = 1 /\
    List.length (variables r) = 1 /\
    List.length (params r) = 1 /\
    List.length (assignments r) = 3.
Proof.
  eexists. split; [reflexivity|].
  destruct (splitUp_lengths [("a", VNumber 1); ("b", VNull); ("c", VNull)]
              true 4 _ eq_refl) as (H1 & H2 & H3 & _).
  repeat split; assumption.
Defined.

Lemma parameterised_before_false (fields : list (string * value)) (i : nat)
  (entry : string * value) :
  nth_error fields i = Some entry ->
  parameterised_before false fields i = i.
Proof.
  intros H. unfold parameterised_before.
  rewrite filter_parameterised_false, length_firstn.
  assert (i < List.length fields) by (apply nth_error_Some; congruence).
  lia.
Qed.

(** X6.  Outside WHERE mode a [null] value is a parameter like any other:
    the entry at position [i] gives the column ["key"], the assignment
    ["key" = $(offset+i+1)] and its value, [null] or not, as parameter
    [i]. *)
Theorem splitUp_set_mode (fields : list (string * value)) (offset : nat) :
  names_valid fields ->
  exists r,
    splitUp fields false offset = ok r /\
    forall i key v,
      nth_error fields i = Some (key, v) ->
      nth_error (columns r) i = Some (quoted key) /\
      nth_error (assignments r) i
      = Some (quoted key ++ " = " ++ placeholder (offset + i + 1)) /\
      nth_error (params r) i = Some v.
Proof.
  intros Hvalid.
  eexists. split; [apply (splitUp_valid false offset fields Hvalid)|].
  cbn [columns params assignments]. rewrite filter_parameterised_false.
  intros i key v Hi. rewrite !nth_error_map, Hi. cbn [option_map fst snd].
  split; [reflexivity|]. split; [|reflexivity].
  rewrite (nth_error_assignments_from false fields (offset + 1) i key v Hi).
  rewrite (parameterised_before_false fields i (key, v) Hi).
  cbn [andb]. now replace (offset + 1 + i) with (offset + i + 1) by lia.
Qed.

Lemma splitUp_set_mode_witness :
  exists r,
    splitUp [("age", VNumber 31); ("boss", VNull)] false 2 = ok r /\
    nth_error (columns r) 1 = Some (quoted "boss") /\
    nth_error (assignments r) 1 = Some (quoted "boss" ++ " = $4") /\
    nth_error (params r) 1 = Some VNull.
Proof.
  destruct (splitUp_set_mode [("age", VNumber 31); ("boss", VNull)] 2)
    as (r & Hr & Hnth).
  - repeat constructor.
  - exists r. split; [exact Hr|].
    exact (Hnth 1 "boss" VNull eq_refl).
Defined.

Lemma assignments_from_app (isWhere : bool) (xs ys : list (string * value)) :
  forall k,
    assignments_from isWhere k (xs ++ ys)%list =
    (assignments_from isWhere k xs
     ++ assignments_from isWhere
          (k + List.length (filter (parameterised isWhere) xs)) ys)%list.
Proof.
  induction xs as [|[key v] xs IH]; intros k; cbn [app assignments_from filter].
  - cbn [List.length]. now rewrite Nat.add_0_r.
  - replace (parameterised isWhere (key, v))
      with (negb (isWhere && is_null v)) by reflexivity.
    destruct (isWhere && is_null v); cbn [negb List.length app].
    + now rewrite IH.
    + rewrite IH.
      now replace (S k + List.length (filter (parameterised isWhere) xs))
        with (k + S (List.length (filter (parameterised isWhere) xs))) by lia.
Qed.

(** X7.  Fragments compose: when [splitUp] returns on [xs] at [offset] and
    on [ys] at [offset] plus the parameter count of the first fragment, it
    returns on [xs] followed by [ys] at [offset], and its columns,
    placeholders, parameters and assignments are those of the first fragment
    followed by those of the second. *)
Theorem splitUp_app (xs ys : list (string * value)) (isWhere : bool)
  (offset : nat) (r1 r2 : SplitUpResult) :
  splitUp xs isWhere offset = ok r1 ->
  splitUp ys isWhere (offset + List.length (params r1)) = ok r2 ->
  exists r,
    splitUp (xs ++ ys)%list isWhere offset = ok r /\
    columns r = (columns r1 ++ columns r2)%list /\
    variables r = (variables r1 ++ variables r2)%list /\
    params r = (params r1 ++ params r2)%list /\
    assignments r = (assignments r1 ++ assignments r2)%list.
Proof.
  intros H1 H2.
  pose proof (splitUp_ok_names_valid _ _ _ _ H1) as Hxs.
  pose proof (splitUp_ok_names_valid _ _ _ _ H2) as Hys.
  assert (Hall : names_valid (xs ++ ys)) by (apply Forall_app; auto).
  rewrite (splitUp_valid isWhere offset xs Hxs) in H1. injection H1 as <-.
  cbn [params] in H2. rewrite length_map in H2.
  rewrite (splitUp_valid isWhere _ ys Hys) in H2. injection H2 as <-.
  eexists. split; [apply (splitUp_valid isWhere offset _ Hall)|].
  cbn [columns variables params assignments].
  rewrite filter_app, !map_app, length_app, seq_app, map_app.
  rewrite assignments_from_app.
  replace (offset + 1
           + List.length (filter (parameterised isWhere) xs))
    with (offset + List.length (filter (parameterised isWhere) xs) + 1)
    by lia.
  repeat split.
Qed.

Lemma splitUp_app_witness :
  exists r,
    splitUp [("a", VNumber 1); ("b", VNull); ("c", VBool true)] true 3 = ok r /\
    columns r = [quoted "a"; quoted "c"] /\
    variables r = ["$4"; "$5"] /\
    params r = [VNumber 1; VBool true] /\
    assignments r
    = [quoted "a" ++ " = $4"; quoted "b" ++ " is null"; quoted "c" ++ " = $5"].
Proof.
  destruct (splitUp_app [("a", VNumber 1); ("b", VNull)] [("c", VBool true)]
              true 3
              {| columns := [quoted "a"]; variables := ["$4"];
                 params := [VNumber 1];
                 assignments := [quoted "a" ++ " = $4"; quoted "b" ++ " is null"];
                 whereSection :=
                   " where " ++ quoted "a" ++ " = $4 and " ++ quoted "b"
                   ++ " is null" |}
              {| columns := [quoted "c"]; variables := ["$5"];
                 params := [VBool true];
                 assignments := [quoted "c" ++ " = $5"];
                 whereSection := " where " ++ quoted "c" ++ " = $5" |}
              eq_refl eq_refl)
    as (r & Hr & Hc & Hv & Hp & Ha).
  exists r. repeat split; assumption.
Defined.

Lemma shape_fragments (isWhere : bool) (f1 : list (string * value)) :
  forall f2,
    shape isWhere f1 = shape isWhere f2 ->
    names_valid f1 ->
    names_valid f2 /\
    map fst (filter (parameterised isWhere) f1)
    = map fst (filter (parameterised isWhere) f2) /\
    (forall k, assignments_from isWhere k f1 = assignments_from isWhere k f2).
Proof.
  induction f1 as [|[k1 v1] f1 IH]; intros [|[k2 v2] f2] Hshape Hvalid;
    try discriminate.
  - repeat split. constructor.
  - cbn [shape map fst snd] in Hshape. injection Hshape as <- Hnull Hrest.
    apply names_valid_cons in Hvalid. destruct Hvalid as [Hkey Hf1].
    destruct (IH f2 Hrest Hf1) as (Hf2 & Hfilter & Hassign).
    split; [now apply names_valid_cons|].
    cbn [filter assignments_from].
    replace (parameterised isWhere (k1, v1))
      with (negb (isWhere && is_null v1)) by reflexivity.
    replace (parameterised isWhere (k1, v2))
      with (negb (isWhere && is_null v2)) by reflexivity.
    rewrite <- Hnull.
    destruct (isWhere && is_null v1); cbn [negb map fst].
    + split; [exact Hfilter|]. intros k. now rewrite Hassign.
    + split; [now rewrite Hfilter|]. intros k. now rewrite Hassign.
Qed.

(** X8.  The text of a fragment comes from the shape of the mapping alone
    (its column names and, in WHERE mode, which values are [null]): two
    mappings of one shape give the same columns, placeholders, assignments
    and WHERE text and as many parameters, whatever their values are. *)
Theorem splitUp_text_from_shape (f1 f2 : list (string * value))
  (isWhere : bool) (offset : nat) (r1 : SplitUpResult) :
  shape isWhere f1 = shape isWhere f2 ->
  splitUp f1 isWhere offset = ok r1 ->
  exists r2,
    splitUp f2 isWhere offset = ok r2 /\
    columns r2 = columns r1 /\
    variables r2 = variables r1 /\
    assignments r2 = assignments r1 /\
    whereSection r2 = whereSection r1 /\
    List.length (params r2) = List.length (params r1).
Proof.
  intros Hshape H1.
  pose proof (splitUp_ok_names_valid _ _ _ _ H1) as Hf1.
  destruct (shape_fragments isWhere f1 f2 Hshape Hf1)
    as (Hf2 & Hfilter & Hassign).
  rewrite (splitUp_valid isWhere offset f1 Hf1) in H1. injection H1 as <-.
  eexists. split; [apply (splitUp_valid isWhere offset f2 Hf2)|].
  cbn [columns variables params assignments whereSection].
  assert (Hlen : List.length (filter (parameterised isWhere) f2)
                 = List.length (filter (parameterised isWhere) f1)).
  { rewrite <- (length_map fst (filter (parameterised isWhere) f2)),
      <- (length_map fst (filter (parameterised isWhere) f1)).
    now rewrite Hfilter. }
  rewrite !length_map, Hlen, <- Hassign.
  assert (Hcols :
    map (fun e : string * value => quoted (fst e))
      (filter (parameterised isWhere) f2)
    = map (fun e : string * value => quoted (fst e))
        (filter (parameterised isWhere) f1)).
  { rewrite <- (map_map fst quoted (filter (parameterised isWhere) f2)),
      <- (map_map fst quoted (filter (parameterised isWhere) f1)).
    now rewrite Hfilter. }
  rewrite Hcols. repeat split.
  destruct f1, f2; try discriminate; reflexivity.
Qed.

Lemma splitUp_text_from_shape_witness :
  exists r2,
    splitUp [("name", VString "x; drop table users"); ("gone", VNull)] true 0
    = ok r2 /\
    columns r2 = [quoted "name"] /\
    variables r2 = ["$1"] /\
    assignments r2 = [quoted "name" ++ " = $1"; quoted "gone" ++ " is null"] /\
    whereSection r2
    = " where " ++ quoted "name" ++ " = $1 and " ++ quoted "gone" ++ " is null"
    /\ List.length (params r2) = 1.
Proof.
  apply (splitUp_text_from_shape
           [("name", VString "Bob"); ("gone", VNull)]
           [("name", VString "x; drop table users"); ("gone", VNull)]
           true 0
           {| columns := [quoted "name"]; variables := ["$1"];
              params := [VString "Bob"];
              assignments :=
                [quoted "name" ++ " = $1"; quoted "gone" ++ " is null"];
              whereSection :=
                " where " ++ quoted "name" ++ " = $1 and " ++ quoted "gone"
                ++ " is null" |}
           eq_refl eq_refl).
Defined.

(** ** The statements of the operations *)

Lemma splitUp_set_valid (fields : list (string * value)) :
  names_valid fields ->
  splitUp fields false 0 =
  ok {| columns := map (fun e => quoted (fst e)) fields;
        variables := map placeholder (seq 1 (List.length fields));
        params := map snd fields;
        assignments := assignments_from false 1 fields;
        whereSection := EmptyString |}.
Proof.
  intros H. rewrite (splitUp_valid false 0 fields H).
  now rewrite filter_parameterised_false.
Qed.

Lemma splitUp_where_valid (conditions : list (string * value)) (offset : nat) :
  names_valid conditions ->
  exists w,
    splitUp conditions true offset = ok w /\
    params w = non_null_values conditions /\
    whereSection w = where_text (offset + 1) conditions.
Proof.
  intros H. eexists. split; [apply (splitUp_valid true offset conditions H)|].
  split; reflexivity.
Qed.

Lemma create_statement_valid (table : string) (fields : list (string * value)) :
  valid_name table = true ->
  names_valid fields ->
  create_statement table fields =
  ok ("insert into " ++ quoted table
      ++ " (" ++ join "," (map (fun e => quoted (fst e)) fields)
      ++ ") values ("
      ++ join "," (map placeholder (seq 1 (List.length fields))) ++ ")",
      map snd fields).
Proof.
  intros Ht Hf. unfold create_statement.
  rewrite (splitUp_set_valid fields Hf). cbn [cbind ok].
  now rewrite (checkName_valid table Ht).
Qed.

Lemma update_statement_valid (table : string)
  (fields conditions : list (string * value)) :
  valid_name table = true ->
  names_valid fields ->
  names_valid conditions ->
  update_statement table fields conditions =
  ok ("update " ++ quoted table
      ++ " set " ++ join "," (assignments_from false 1 fields)
      ++ where_text (List.length fields + 1) conditions,
      (map snd fields ++ non_null_values conditions)%list).
Proof.
  intros Ht Hf Hc. unfold update_statement.
  rewrite (splitUp_set_valid fields Hf). cbn [cbind ok params].
  rewrite length_map.
  destruct (splitUp_where_valid conditions (List.length fields) Hc)
    as (w & -> & Hp & Hw).
  cbn [cbind ok]. rewrite (checkName_valid table Ht). cbn [cbind ok].
  cbn [assignments]. now rewrite Hp, Hw.
Qed.

Lemma select_statement_valid (table : string)
  (conditions : list (string * value)) :
  valid_name table = true ->
  names_valid conditions ->
  select_statement table conditions =
  ok ("select * from " ++ quoted table ++ where_text 1 conditions,
      non_null_values conditions).
Proof.
  intros Ht Hc. unfold select_statement.
  destruct (splitUp_where_valid conditions 0 Hc) as (w & -> & Hp & Hw).
  cbn [cbind ok]. rewrite (checkName_valid table Ht). cbn [cbind ok].
  now rewrite Hp, Hw.
Qed.

Lemma delete_statement_valid (table : string)
  (conditions : list (string * value)) :
  valid_name table = true ->
  names_valid conditions ->
  delete_statement table conditions =
  ok ("delete from " ++ quoted table ++ where_text 1 conditions,
      non_null_values conditions).
Proof.
  intros Ht Hc. unfold delete_statement.
  destruct (splitUp_where_valid conditions 0 Hc) as (w & -> & Hp & Hw).
  cbn [cbind ok]. rewrite (checkName_valid table Ht). cbn [cbind ok].
  now rewrite Hp, Hw.
Qed.

Lemma append_empty (s : string) : s ++ EmptyString = s.
Proof. induction s as [|c s IH]; simpl; congruence. Qed.

Section StatementForms.

Variable Client : Type.
Variable client_query :
  Client -> string -> option (list value) -> Completion QueryResult * Client.

(** X9.  [create] hands [query2] the text
    [insert into "table" (columns) values ($1,...,$N)] with the values of the
    mapping as parameters; nothing stops an empty mapping, which gives
    [insert into "table" () values ()] with no parameter. *)
Theorem create_form (table : string) (fields : list (string * value))
  (c : Client) :
  valid_name table = true ->
  names_valid fields ->
  create client_query table fields c
  = query2 client_query
      ("insert into " ++ quoted table
       ++ " (" ++ join "," (map (fun e => quoted (fst e)) fields)
       ++ ") values ("
       ++ join "," (map placeholder (seq 1 (List.length fields))) ++ ")")
      (map snd fields) c /\
  create client_query table [] c
  = query2 client_query ("insert into " ++ quoted table ++ " () values ()")
      [] c.
Proof.
  intros Ht Hf. split.
  - change (create client_query table fields c)
      with (perform client_query (Create table fields) c).
    rewrite perform_execute. cbn [statement_of].
    now rewrite (create_statement_valid table fields Ht Hf).
  - change (create client_query table [] c)
      with (perform client_query (Create table []) c).
    rewrite perform_execute. cbn [statement_of].
    rewrite (create_statement_valid table [] Ht) by constructor.
    reflexivity.
Qed.

(** X10.  [select] hands [query2] the text [select * from "table"] followed
    by the WHERE text of the conditions numbered from [$1], with the values
    that are not [null] as parameters; with no condition the text stops after
    the table and selects every row. *)
Theorem select_form (table : string) (conditions : list (string * value))
  (c : Client) :
  valid_name table = true ->
  names_valid conditions ->
  select client_query table conditions c
  = query2 client_query
      ("select * from " ++ quoted table ++ where_text 1 conditions)
      (non_null_values conditions) c /\
  select client_query table [] c
  = query2 client_query ("select * from " ++ quoted table) [] c.
Proof.
  intros Ht Hc. split.
  - change (select client_query table conditions c)
      with (perform client_query (Select table conditions) c).
    rewrite perform_execute. cbn [statement_of].
    now rewrite (select_statement_valid table conditions Ht Hc).
  - change (select client_query table [] c)
      with (perform client_query (Select table []) c).
    rewrite perform_execute. cbn [statement_of].
    rewrite (select_statement_valid table [] Ht) by constructor.
    cbn [where_text non_null_values filter map execute ok].
    now rewrite append_empty.
Qed.

(** X11.  [delete] hands [query2] the text [delete from "table"] followed by
    the WHERE text of the conditions, with the values that are not [null] as
    parameters; with no condition there is no WHERE text: the statement
    deletes every row of the table. *)
Theorem delete_form (table : string) (conditions : list (string * value))
  (c : Client) :
  valid_name table = true ->
  names_valid conditions ->
  delete client_query table conditions c
  = query2 client_query
      ("delete from " ++ quoted table ++ where_text 1 conditions)
      (non_null_values conditions) c /\
  delete client_query table [] c
  = query2 client_query ("delete from " ++ quoted table) [] c.
Proof.
  intros Ht Hc. split.
  - change (delete client_query table conditions c)
      with (perform client_query (Delete table conditions) c).
    rewrite perform_execute. cbn [statement_of].
    now rewrite (delete_statement_valid table conditions Ht Hc).
  - change (delete client_query table [] c)
      with (perform client_query (Delete table []) c).
    rewrite perform_execute. cbn [statement_of].
    rewrite (delete_statement_valid table [] Ht) by constructor.
    cbn [where_text non_null_values filter map execute ok].
    now rewrite append_empty.
Qed.

(** X12.  [update] hands [query2] the text [update "table" set] with the
    assignments of the SET mapping numbered from [$1] and joined by a comma,
    followed by the WHERE text of the conditions numbered from [$(N+1)], and
    as parameters the SET values followed by the condition values that are
    not [null]; with no condition there is no WHERE text: the statement
    updates every row. *)
Theorem update_form (table : string)
  (fields conditions : list (string * value)) (c : Client) :
  valid_name table = true ->
  names_valid fields ->
  names_valid conditions ->
  update client_query table fields conditions c
  = query2 client_query
      ("update " ++ quoted table
       ++ " set " ++ join "," (assignments_from false 1 fields)
       ++ where_text (List.length fields + 1) conditions)
      (map snd fields ++ non_null_values conditions)%list c /\
  update client_query table fields [] c
  = query2 client_query
      ("update " ++ quoted table
       ++ " set " ++ join "," (assignments_from false 1 fields))
      (map snd fields) c.
Proof.
  intros Ht Hf Hc. split.
  - change (update client_query table fields conditions c)
      with (perform client_query (Update table fields conditions) c).
    rewrite perform_execute. cbn [statement_of].
    now rewrite (update_statement_valid table fields conditions Ht Hf Hc).
  - change (update client_query table fields [] c)
      with (perform client_query (Update table fields []) c).
    rewrite perform_execute. cbn [statement_of].
    rewrite (update_statement_valid table fields [] Ht Hf) by constructor.
    cbn [where_text non_null_values filter map execute ok].
    now rewrite append_empty, app_nil_r.
Qed.

End StatementForms.

Lemma where_text_id (k : nat) (id : Id) :
  where_text k [("id", value_of_id id)]
  = " where " ++ quoted "id" ++ " = " ++ placeholder k.
Proof. now destruct id. Qed.

Lemma non_null_values_id (id : Id) :
  non_null_values [("id", value_of_id id)] = [value_of_id id].
Proof. now destruct id. Qed.

Section OtherCallers.

Variable Client : Type.
Variable client_query :
  Client -> string -> option (list value) -> Completion QueryResult * Client.

(** X13.  [updateById] is one [update] whose condition is the id: the text
    is [update "table" set] with the assignments numbered from [$1], then
    [where "id" = $(N+1)]; the id is the last parameter; and what comes back
    is nothing, the rows of the driver being dropped, or the error of
    [query2]. *)
Theorem updateById_form (tableName : string) (id : Id)
  (fields : list (string * value)) (c : Client) :
  valid_name tableName = true ->
  names_valid fields ->
  updateById client_query tableName id fields c
  = (let '(res, c', evs) :=
       query2 client_query
         ("update " ++ quoted tableName
          ++ " set " ++ join "," (assignments_from false 1 fields)
          ++ " where " ++ quoted "id" ++ " = "
          ++ placeholder (List.length fields + 1))
         (map snd fields ++ [value_of_id id])%list c in
     (match res with
      | inl e => throw e
      | inr _ => ok tt
      end, c', evs)).
Proof.
  intros Ht Hf. unfold updateById, await.
  change (update client_query tableName fields [("id", value_of_id id)] c)
    with (perform client_query
            (Update tableName fields [("id", value_of_id id)]) c).
  rewrite perform_execute. cbn [statement_of].
  rewrite (update_statement_valid tableName fields [("id", value_of_id id)]
             Ht Hf) by (repeat constructor).
  rewrite where_text_id, non_null_values_id. cbn [execute ok].
  destruct (query2 client_query _ _ c) as [[[e|r] c'] evs]; [reflexivity|].
  unfold resolve. now rewrite app_nil_r.
Qed.

(** X14.  [getAll] without conditions selects every row: it issues
    [select * from "table"] with no parameter, and when the client answers
    with rows it resolves with these rows, all of them and in their order. *)
Theorem getAll_default (tableName : string) (c c' : Client)
  (queryResult : QueryResult) :
  valid_name tableName = true ->
  client_query c ("select * from " ++ quoted tableName) (Some [])
  = (ok queryResult, c') ->
  getAll client_query tableName None c
  = (ok (rows queryResult), c',
     [ClientQuery ("select * from " ++ quoted tableName) (Some [])
        (ok queryResult)]).
Proof.
  intros Ht Hq. unfold getAll.
  change (select client_query tableName [] c)
    with (perform client_query (Select tableName []) c).
  rewrite perform_execute. cbn [statement_of].
  rewrite (select_statement_valid tableName [] Ht) by constructor.
  cbn [where_text non_null_values filter map execute ok].
  rewrite append_empty, query2_cases. cbn [Array_map ok].
  unfold ok in Hq. now rewrite Hq.
Qed.

End OtherCallers.

Lemma create_form_witness :
  create scripted_query "users"
    [("name", VString "Alice"); ("age", VNumber 30)] []
  = query2 scripted_query
      ("insert into " ++ quoted "users" ++ " (" ++ quoted "name" ++ ","
       ++ quoted "age" ++ ") values ($1,$2)")
      [VString "Alice"; VNumber 30] [] /\
  create scripted_query "users" [] []
  = query2 scripted_query ("insert into " ++ quoted "users" ++ " () values ()")
      [] [].
Proof.
  apply (create_form Scripted scripted_query "users"
           [("name", VString "Alice"); ("age", VNumber 30)] []).
  - reflexivity.
  - repeat constructor.
Defined.

Lemma select_form_witness :
  select scripted_query "users" [("active", VNull); ("age", VNumber 30)] []
  = query2 scripted_query
      ("select * from " ++ quoted "users" ++ " where " ++ quoted "active"
       ++ " is null and " ++ quoted "age" ++ " = $1")
      [VNumber 30] [] /\
  select scripted_query "users" [] []
  = query2 scripted_query ("select * from " ++ quoted "users") [] [].
Proof.
  apply (select_form Scripted scripted_query "users"
           [("active", VNull); ("age", VNumber 30)] []).
  - reflexivity.
  - repeat constructor.
Defined.

Lemma delete_form_witness :
  delete scripted_query "users" [("id", VNumber 5)] []
  = query2 scripted_query
      ("delete from " ++ quoted "users" ++ " where " ++ quoted "id" ++ " = $1")
      [VNumber 5] [] /\
  delete scripted_query "users" [] []
  = query2 scripted_query ("delete from " ++ quoted "users") [] [].
Proof.
  apply (delete_form Scripted scripted_query "users" [("id", VNumber 5)] []).
  - reflexivity.
  - repeat constructor.
Defined.

Lemma update_form_witness :
  update scripted_query "users" [("age", VNumber 31); ("boss", VNull)]
    [("gone", VNull); ("id", VNumber 5)] []
  = query2 scripted_query
      ("update " ++ quoted "users" ++ " set " ++ quoted "age" ++ " = $1,"
       ++ quoted "boss" ++ " = $2 where " ++ quoted "gone" ++ " is null and "
       ++ quoted "id" ++ " = $3")
      [VNumber 31; VNull; VNumber 5] [] /\
  update scripted_query "users" [("age", VNumber 31); ("boss", VNull)] [] []
  = query2 scripted_query
      ("update " ++ quoted "users" ++ " set " ++ quoted "age" ++ " = $1,"
       ++ quoted "boss" ++ " = $2")
      [VNumber 31; VNull] [].
Proof.
  apply (update_form Scripted scripted_query "users"
           [("age", VNumber 31); ("boss", VNull)]
           [("gone", VNull); ("id", VNumber 5)] []).
  - reflexivity.
  - repeat constructor.
  - repeat constructor.
Defined.

Lemma updateById_form_witness :
  updateById scripted_query "users" (IdNumber 5) [("age", VNumber 31)]
    [ok (mkQueryResult [[("id", VNumber 5); ("age", VNumber 31)]])]
  = (ok tt, [],
     [ClientQuery
        ("update " ++ quoted "users" ++ " set " ++ quoted "age"
         ++ " = $1 where " ++ quoted "id" ++ " = $2")
        (Some [VNumber 31; VNumber 5])
        (ok (mkQueryResult [[("id", VNumber 5); ("age", VNumber 31)]]))]).
Proof.
  rewrite (updateById_form Scripted scripted_query "users" (IdNumber 5)
             [("age", VNumber 31)]
             [ok (mkQueryResult [[("id", VNumber 5); ("age", VNumber 31)]])]
             eq_refl
             (Forall_cons ("age", VNumber 31) eq_refl (Forall_nil _))).
  reflexivity.
Defined.

Lemma getAll_default_witness :
  getAll scripted_query "users" None
    [ok (mkQueryResult [[("id", VNumber 1)]; [("id", VNumber 2)]])]
  = (ok [[("id", VNumber 1)]; [("id", VNumber 2)]], [],
     [ClientQuery ("select * from " ++ quoted "users") (Some [])
        (ok (mkQueryResult [[("id", VNumber 1)]; [("id", VNumber 2)]]))]).
Proof.
  apply (getAll_default Scripted scripted_query "users"
           [ok (mkQueryResult [[("id", VNumber 1)]; [("id", VNumber 2)]])] []
           (mkQueryResult [[("id", VNumber 1)]; [("id", VNumber 2)]])).
  - reflexivity.
  - reflexivity.
Defined.

(** ** Errors and traces of the operations *)

Lemma splitUp_error (fields : list (string * value)) (isWhere : bool)
  (offset : nat) (e : exn) :
  splitUp fields isWhere offset = inl e ->
  exists name, valid_name name = false /\ e = IllegalIdentifier name.
Proof.
  intros H.
  destruct (names_valid_or_first_illegal fields)
    as [Hvalid|(pre & key & v & post & -> & Hpre & Hkey)].
  - rewrite (splitUp_valid isWhere offset fields Hvalid) in H. discriminate.
  - rewrite (splitUp_illegal isWhere offset pre post key v Hpre Hkey) in H.
    injection H as <-. now exists key.
Qed.

Lemma checkName_error (name : string) (e : exn) :
  checkName name = inl e ->
  valid_name name = false /\ e = IllegalIdentifier name.
Proof.
  unfold checkName. rewrite test_name_pattern.
  destruct (valid_name name); [discriminate|].
  intros H. injection H as <-. auto.
Qed.

(** A statement that cannot be built fails on a name. *)
Lemma statement_of_error (op : operation) (e : exn) :
  statement_of op = inl e ->
  exists name, valid_name name = false /\ e = IllegalIdentifier name.
Proof.
  destruct op as [table fields|table fields unique|table fields wc
                 |table wc|table wc];
    cbn [statement_of];
    unfold create_statement, upsert_statement, update_statement,
      select_statement, delete_statement.
  - destruct (splitUp fields false 0) as [e0|r] eqn:Hs; cbn [cbind].
    + intros H. injection H as <-. exact (splitUp_error _ _ _ _ Hs).
    + destruct (checkName table) as [e0|name] eqn:Hn; cbn [cbind];
        [|discriminate].
      intros H. injection H as <-. exists table.
      exact (checkName_error _ _ Hn).
  - destruct (splitUp fields false 0) as [e0|r] eqn:Hs; cbn [cbind].
    + intros H. injection H as <-. exact (splitUp_error _ _ _ _ Hs).
    + destruct (checkName table) as [e0|name] eqn:Hn; cbn [cbind];
        [|discriminate].
      intros H. injection H as <-. exists table.
      exact (checkName_error _ _ Hn).
  - destruct (splitUp fields false 0) as [e0|r] eqn:Hs; cbn [cbind].
    + intros H. injection H as <-. exact (splitUp_error _ _ _ _ Hs).
    + destruct (splitUp wc true (List.length (params r))) as [e0|w] eqn:Hw;
        cbn [cbind].
      * intros H. injection H as <-. exact (splitUp_error _ _ _ _ Hw).
      * destruct (checkName table) as [e0|name] eqn:Hn; cbn [cbind];
          [|discriminate].
        intros H. injection H as <-. exists table.
        exact (checkName_error _ _ Hn).
  - destruct (splitUp wc true 0) as [e0|w] eqn:Hw; cbn [cbind].
    + intros H. injection H as <-. exact (splitUp_error _ _ _ _ Hw).
    + destruct (checkName table) as [e0|name] eqn:Hn; cbn [cbind];
        [|discriminate].
      intros H. injection H as <-. exists table.
      exact (checkName_error _ _ Hn).
  - destruct (splitUp wc true 0) as [e0|w] eqn:Hw; cbn [cbind].
    + intros H. injection H as <-. exact (splitUp_error _ _ _ _ Hw).
    + destruct (checkName table) as [e0|name] eqn:Hn; cbn [cbind];
        [|discriminate].
      intros H. injection H as <-. exists table.
      exact (checkName_error _ _ Hn).
Qed.

(** With a table name that is not valid no statement is built. *)
Lemma statement_of_illegal_table (op : operation) :
  valid_name (table_of op) = false ->
  exists e, statement_of op = inl e.
Proof.
  intros Ht.
  destruct op as [table fields|table fields unique|table fields wc
                 |table wc|table wc];
    cbn [statement_of table_of] in *;
    unfold create_statement, upsert_statement, update_statement,
      select_statement, delete_statement.
  - destruct (splitUp fields false 0) as [e0|r]; cbn [cbind];
      [now exists e0|]. rewrite (checkName_invalid _ Ht). eexists. reflexivity.
  - destruct (splitUp fields false 0) as [e0|r]; cbn [cbind];
      [now exists e0|]. rewrite (checkName_invalid _ Ht). eexists. reflexivity.
  - destruct (splitUp fields false 0) as [e0|r]; cbn [cbind];
      [now exists e0|].
    destruct (splitUp wc true (List.length (params r))) as [e0|w]; cbn [cbind];
      [now exists e0|]. rewrite (checkName_invalid _ Ht). eexists. reflexivity.
  - destruct (splitUp wc true 0) as [e0|w]; cbn [cbind];
      [now exists e0|]. rewrite (checkName_invalid _ Ht). eexists. reflexivity.
  - destruct (splitUp wc true 0) as [e0|w]; cbn [cbind];
      [now exists e0|]. rewrite (checkName_invalid _ Ht). eexists. reflexivity.
Qed.

Lemma Array_map_serialize_no_date (ps : list value) :
  forall ps',
    Array_map serialize_param ps = ok ps' ->
    Forall (fun p => is_date p = false) ps'.
Proof.
  induction ps as [|p ps IH]; intros ps' H; cbn [Array_map] in H.
  - injection H as <-. constructor.
  - destruct (serialize_param p) as [e|p'] eqn:Hp; [discriminate|].
    cbn [cbind] in H.
    destruct (Array_map serialize_param ps) as [e|ps0]; [discriminate|].
    cbn [cbind] in H. injection H as <-.
    constructor; [|now apply IH].
    destruct p; cbn [serialize_param] in Hp;
      try (injection Hp as <-; reflexivity).
    destruct (toISOString d); [discriminate|].
    cbn [cbind] in Hp. now injection Hp as <-.
Qed.

Section TraceFacts.

Variable Client : Type.
Variable client_query :
  Client -> string -> option (list value) -> Completion QueryResult * Client.

(** X15.  An operation on a table whose name is not a valid identifier
    rejects with the error of a name that is not valid, the table's or a
    column's, and sends nothing: the client is not called, its state is the
    same and nothing is logged. *)
Theorem illegal_table_sends_nothing (op : operation) (c : Client) :
  valid_name (table_of op) = false ->
  exists name,
    valid_name name = false /\
    perform client_query op c = (throw (IllegalIdentifier name), c, []).
Proof.
  intros Ht. rewrite perform_execute.
  destruct (statement_of_illegal_table op Ht) as (e & He).
  destruct (statement_of_error op e He) as (name & Hname & ->).
  exists name. split; [exact Hname|]. now rewrite He.
Qed.

(** X16.  Every run of [create], [upsert], [update], [select] or [delete]
    calls the client at most once and logs at most once.  When it resolves,
    what was done is one call the client resolved, and the rows are those
    of its answer.  When it rejects with [e], either nothing was done and
    [e] is the error of a name that is not valid, or [e] was logged, once. *)
Theorem perform_trace (op : operation) (c c' : Client)
  (res : Completion (list Row)) (evs : list event) :
  perform client_query op c = (res, c', evs) ->
  List.length (calls evs) <= 1 /\
  List.length (logged evs) <= 1 /\
  (forall rs,
      res = ok rs ->
      exists sql ps queryResult,
        evs = [ClientQuery sql (Some ps) (ok queryResult)] /\
        rs = rows queryResult) /\
  (forall e,
      res = throw e ->
      (evs = [] /\ c' = c /\
       exists name, valid_name name = false /\ e = IllegalIdentifier name) \/
      logged evs = [e]).
Proof.
  rewrite perform_execute. intros H. apply execute_cases in H.
  destruct H as [(e0 & Hst & -> & -> & ->)
                |[(sql & ps & e0 & _ & _ & -> & -> & ->)
                 |[(sql & ps & ps' & e0 & _ & _ & _ & -> & ->)
                  |(sql & ps & ps' & qr & _ & _ & _ & -> & ->)]]];
    cbn [calls logged List.length].
  - repeat split; try lia; [discriminate|].
    intros e H. injection H as <-. left. repeat split.
    exact (statement_of_error op e0 Hst).
  - repeat split; try lia; [discriminate|].
    intros e H. injection H as <-. now right.
  - repeat split; try lia; [discriminate|].
    intros e H. injection H as <-. now right.
  - repeat split; try lia; [|discriminate].
    intros rs H. injection H as <-. now exists sql, ps', qr.
Qed.

(** X17.  A parameter that is a [Date] without a serialization stops the
    query before the client: [query] rejects with the [RangeError] and has
    done nothing, [query2] rejects with it and has logged it once. *)
Theorem invalid_date_rejected (sql : string) (pre post : list value)
  (d : Date) (c : Client) :
  dates_valid pre ->
  date_valid d = false ->
  query client_query sql (Some (pre ++ VDate d :: post)%list) c
  = (throw (RangeError "Invalid time value"), c, []) /\
  query2 client_query sql (pre ++ VDate d :: post)%list c
  = (throw (RangeError "Invalid time value"), c,
     [ConsoleError (RangeError "Invalid time value")]).
Proof.
  intros Hpre Hd. split.
  - now rewrite query_Some,
      (Array_map_serialize_param_invalid pre post d Hpre Hd).
  - now rewrite query2_cases,
      (Array_map_serialize_param_invalid pre post d Hpre Hd).
Qed.

(** X18.  [query] itself logs nothing and calls the client at most once;
    when it called the client, with or without parameters, the text is the
    one it was given and it resolves or rejects exactly as the client did. *)
Theorem query_outcome (sql : string) (params : option (list value))
  (c c' : Client) (res : Completion QueryResult) (evs : list event) :
  query client_query sql params c = (res, c', evs) ->
  logged evs = [] /\
  List.length (calls evs) <= 1 /\
  (params = None -> exists out, evs = [ClientQuery sql None out]) /\
  forall sql' ps' out,
    In (ClientQuery sql' ps' out) evs ->
    sql' = sql /\ res = out /\ evs = [ClientQuery sql' ps' out].
Proof.
  destruct params as [ps|].
  - rewrite query_Some.
    destruct (Array_map serialize_param ps) as [e|ps'].
    + intros H. injection H as <- <- <-.
      split; [reflexivity|]. split; [simpl; lia|]. split; [discriminate|].
      intros sql' ps' out [].
    + unfold client_call.
      destruct (client_query c sql (Some ps')) as [out c1].
      intros H. injection H as <- <- <-.
      split; [reflexivity|]. split; [simpl; lia|]. split; [discriminate|].
      intros sql' ps0 out' [H|[]]. injection H as <- <- <-. auto.
  - rewrite query_None. unfold client_call.
    destruct (client_query c sql None) as [out c1].
    intros H. injection H as <- <- <-.
    split; [reflexivity|]. split; [simpl; lia|].
    split; [intros _; now exists out|].
    intros sql' ps0 out' [H|[]]. injection H as <- <- <-. auto.
Qed.

(** X19.  The client never receives a [Date]: in every call [query] makes,
    and so in every call of an operation, no parameter is a [Date]. *)
Theorem client_never_receives_date :
  (forall sql params c res c' evs sql' ps' out,
      query client_query sql params c = (res, c', evs) ->
      In (ClientQuery sql' (Some ps') out) evs ->
      Forall (fun p => is_date p = false) ps') /\
  (forall op c res c' evs sql' ps' out,
      perform client_query op c = (res, c', evs) ->
      In (ClientQuery sql' (Some ps') out) evs ->
      Forall (fun p => is_date p = false) ps').
Proof.
  split.
  - intros sql [ps|] c res c' evs sql' ps' out.
    + rewrite query_Some.
      destruct (Array_map serialize_param ps) as [e|ps0] eqn:Hmap.
      * intros H. injection H as <- <- <-. contradiction.
      * unfold client_call.
        destruct (client_query c sql (Some ps0)) as [out0 c1].
        intros H. injection H as <- <- <-. intros [Hin|[]].
        injection Hin as <- <- <-.
        exact (Array_map_serialize_no_date ps ps0 Hmap).
    + rewrite query_None. unfold client_call.
      destruct (client_query c sql None) as [out0 c1].
      intros H. injection H as <- <- <-. intros [Hin|[]]. discriminate.
  - intros op c res c' evs sql' ps' out. rewrite perform_execute.
    intros H. apply execute_cases in H.
    destruct H as [(e0 & _ & _ & _ & ->)
                  |[(sql & ps & e0 & _ & _ & _ & _ & ->)
                   |[(sql & ps & ps0 & e0 & _ & Hmap & _ & _ & ->)
                    |(sql & ps & ps0 & qr & _ & Hmap & _ & _ & ->)]]];
      cbn [In].
    + contradiction.
    + intros [H|[]]. discriminate.
    + intros [H|[H|[]]]; [|discriminate]. injection H as <- <-.
      exact (Array_map_serialize_no_date ps ps0 Hmap).
    + intros [H|[]]. injection H as <- <-.
      exact (Array_map_serialize_no_date ps ps0 Hmap).
Qed.

End TraceFacts.

Lemma illegal_table_sends_nothing_witness :
  exists name,
    valid_name name = false /\
    perform scripted_query (Delete "users; --" [("id", VNumber 1)])
      [ok (mkQueryResult [])]
    = (throw (IllegalIdentifier name), [ok (mkQueryResult [])], []).
Proof.
  apply (illegal_table_sends_nothing Scripted scripted_query
           (Delete "users; --" [("id", VNumber 1)]) [ok (mkQueryResult [])]).
  reflexivity.
Defined.

Lemma perform_trace_witness :
  let e := DriverError "23505" "duplicate key value" in
  let evs :=
    snd (perform scripted_query (Create "users" [("name", VString "Alice")])
           [throw e]) in
  List.length (calls evs) <= 1 /\
  List.length (logged evs) <= 1 /\
  logged evs = [e].
Proof.
  intros e evs.
  destruct (perform_trace Scripted scripted_query
              (Create "users" [("name", VString "Alice")]) [throw e] []
              (throw e) evs eq_refl)
    as (Hcalls & Hlogged & _ & Hrejected).
  split; [exact Hcalls|]. split; [exact Hlogged|].
  destruct (Hrejected e eq_refl) as [(Hnil & _)|H]; [discriminate|exact H].
Defined.

Lemma invalid_date_rejected_witness :
  query scripted_query "select $1, $2"
    (Some [VNumber 1; VDate (mkDate None)]) [ok (mkQueryResult [])]
  = (throw (RangeError "Invalid time value"), [ok (mkQueryResult [])], []) /\
  query2 scripted_query "select $1, $2"
    [VNumber 1; VDate (mkDate None)] [ok (mkQueryResult [])]
  = (throw (RangeError "Invalid time value"), [ok (mkQueryResult [])],
     [ConsoleError (RangeError "Invalid time value")]).
Proof.
  apply (invalid_date_rejected Scripted scripted_query "select $1, $2"
           [VNumber 1] [] (mkDate None) [ok (mkQueryResult [])]).
  - repeat constructor.
  - reflexivity.
Defined.

Lemma query_outcome_witness :
  let e := DriverError "25P02" "transaction is aborted" in
  let evs := snd (query scripted_query "commit" None [throw e]) in
  logged evs = [] /\
  List.length (calls evs) <= 1 /\
  evs = [ClientQuery "commit" None (throw e)].
Proof.
  intros e evs.
  destruct (query_outcome Scripted scripted_query "commit" None [throw e] []
              (throw e) evs eq_refl)
    as (Hlogged & Hcalls & _ & Hcall).
  split; [exact Hlogged|]. split; [exact Hcalls|].
  exact (proj2 (proj2 (Hcall "commit" None (throw e) (or_introl eq_refl)))).
Defined.

Lemma client_never_receives_date_witness :
  Forall (fun p => is_date p = false)
    [VString "1970-01-01T00:00:00.000Z"; VNumber 5].
Proof.
  apply (proj2 (client_never_receives_date Scripted scripted_query)
           (Update "users" [("seen", VDate (mkDate (Some 0%Z)))]
              [("id", VNumber 5)])
           [] (ok []) []
           (snd (perform scripted_query
                   (Update "users" [("seen", VDate (mkDate (Some 0%Z)))]
                      [("id", VNumber 5)]) []))
           ("update " ++ quoted "users" ++ " set " ++ quoted "seen"
            ++ " = $1 where " ++ quoted "id" ++ " = $2")
           [VString "1970-01-01T00:00:00.000Z"; VNumber 5]
           (ok (mkQueryResult []))).
  - reflexivity.
  - simpl. auto.
Defined.

(** ** Every run of a batch *)

Lemma upsert_statement_text (tableName : string) (row : Row)
  (unique : list string) (sql : string) (ps : list value) :
  upsert_statement tableName row unique = ok (sql, ps) ->
  exists rest, sql = "insert into " ++ rest.
Proof.
  unfold upsert_statement.
  destruct (splitUp row false 0) as [e|r]; [discriminate|]. cbn [cbind].
  destruct (checkName tableName) as [e|name]; [discriminate|]. cbn [cbind].
  intros H. injection H as <- _. eexists. reflexivity.
Qed.

Section BatchRuns.

Variable Client : Type.
Variable client_query :
  Client -> string -> option (list value) -> Completion QueryResult * Client.

Lemma await_cases {A B} (m : Async Client A) (k : A -> Async Client B)
  (c c' : Client) (res : Completion B) (evs : list event) :
  await m k c = (res, c', evs) ->
  (exists e, m c = (inl e, c', evs) /\ res = inl e) \/
  (exists a c1 evs1 evs2,
      m c = (inr a, c1, evs1) /\
      k a c1 = (res, c', evs2) /\
      evs = (evs1 ++ evs2)%list).
Proof.
  unfold await. destruct (m c) as [[[e|a] c1] evs1].
  - intros H. injection H as <- <- <-. left. now exists e.
  - destruct (k a c1) as [[r c2] evs2] eqn:Hk.
    intros H. injection H as <- <- <-. right.
    now exists a, c1, evs1, evs2.
Qed.

(** A [query] without parameters is one call of the client, whatever the
    client answers. *)
Lemma query_None_calls (sql : string) (c c' : Client)
  (res : Completion QueryResult) (evs : list event) :
  query client_query sql None c = (res, c', evs) ->
  calls evs = [(sql, None)].
Proof.
  rewrite query_None. unfold client_call.
  destruct (client_query c sql None) as [out c1].
  intros H. now injection H as <- <- <-.
Qed.

(** A loop, however it ends, ran its body on a first part of the list, in
    order, and on all of it when it resolved. *)
Lemma for_of_calls {A B} (body : A -> Async Client B)
  (P : A -> string * option (list value) -> Prop) :
  (forall x c b c' evs,
      body x c = (inr b, c', evs) ->
      exists call, calls evs = [call] /\ P x call) ->
  (forall x c e c' evs,
      body x c = (inl e, c', evs) ->
      calls evs = [] \/ exists call, calls evs = [call] /\ P x call) ->
  forall xs c res c' evs,
    for_of xs body c = (res, c', evs) ->
    exists k,
      k <= List.length xs /\
      Forall2 P (firstn k xs) (calls evs) /\
      (forall u, res = inr u -> k = List.length xs).
Proof.
  intros Hres Hfail. induction xs as [|x xs IH]; intros c res c' evs H.
  - cbn [for_of] in H. unfold resolve in H. injection H as <- <- <-.
    exists 0. cbn [firstn calls List.length].
    split; [lia|]. split; [constructor|reflexivity].
  - cbn [for_of] in H. apply await_cases in H.
    destruct H as [(e & Hx & ->)|(b & c1 & evs1 & evs2 & Hx & Hxs & ->)].
    + destruct (Hfail x c e c' evs Hx) as [Hnil|(call & Hone & HP)].
      * exists 0. rewrite Hnil. cbn [firstn List.length].
        split; [lia|]. split; [constructor|discriminate].
      * exists 1. rewrite Hone. cbn [firstn List.length].
        split; [lia|]. split; [repeat constructor; exact HP|discriminate].
    + destruct (Hres x c b c1 evs1 Hx) as (call & Hone & HP).
      destruct (IH c1 res c' evs2 Hxs) as (k & Hk & Hall & Hend).
      exists (S k). rewrite calls_app, Hone. cbn [firstn List.length app].
      split; [lia|]. split; [constructor; assumption|].
      intros u Hu. now rewrite (Hend u Hu).
Qed.

(** Every run of the shape [writeRows] and [deleteRows] share: the calls
    made are a first part of begin, the deferral, one call per element in
    order, commit; and the whole of it when the batch resolved. *)
Lemma batch_prefix {A B} (body : A -> Async Client B)
  (P : A -> string * option (list value) -> Prop) :
  (forall x c b c' evs,
      body x c = (inr b, c', evs) ->
      exists call, calls evs = [call] /\ P x call) ->
  (forall x c e c' evs,
      body x c = (inl e, c', evs) ->
      calls evs = [] \/ exists call, calls evs = [call] /\ P x call) ->
  forall xs c res c' evs,
    await (query client_query "begin" None) (fun _ =>
    await (query client_query "SET CONSTRAINTS fk_parent DEFERRED" None) (fun _ =>
    await (for_of xs body) (fun _ =>
    await (query client_query "commit" None) (fun _ => resolve tt)))) c
    = (res, c', evs) ->
    exists stmts rest,
      (begin_call :: defer_call :: stmts ++ [commit_call])%list
      = (calls evs ++ rest)%list /\
      Forall2 P (firstn (List.length stmts) xs) stmts /\
      (res = ok tt -> rest = [] /\ List.length stmts = List.length xs).
Proof.
  intros Hres Hfail xs c res c' evs H.
  apply await_cases in H.
  destruct H as [(e & Hbegin & ->)|(q1 & c1 & evs1 & evs1' & Hbegin & H & ->)].
  { exists [], [defer_call; commit_call].
    rewrite (query_None_calls _ _ _ _ _ Hbegin).
    split; [reflexivity|]. split; [constructor|discriminate]. }
  apply await_cases in H.
  destruct H as [(e & Hdefer & ->)|(q2 & c2 & evs2 & evs2' & Hdefer & H & ->)].
  { exists [], [commit_call].
    rewrite calls_app, (query_None_calls _ _ _ _ _ Hbegin),
      (query_None_calls _ _ _ _ _ Hdefer).
    split; [reflexivity|]. split; [constructor|discriminate]. }
  apply await_cases in H.
  destruct H as [(e & Hloop & ->)|(u & c3 & evs3 & evs3' & Hloop & H & ->)].
  { destruct (for_of_calls body P Hres Hfail xs c2 _ c' evs2' Hloop)
      as (k & Hk & Hall & _).
    exists (calls evs2'), [commit_call].
    rewrite !calls_app, (query_None_calls _ _ _ _ _ Hbegin),
      (query_None_calls _ _ _ _ _ Hdefer).
    split; [reflexivity|]. split; [|discriminate].
    assert (Hlen : List.length (calls evs2') = k).
    { rewrite <- (Forall2_length Hall), length_firstn. lia. }
    now rewrite Hlen. }
  destruct (for_of_calls body P Hres Hfail xs c2 _ c3 evs3 Hloop)
    as (k & Hk & Hall & Hend).
  assert (Hlen : List.length (calls evs3) = k).
  { rewrite <- (Forall2_length Hall), length_firstn. lia. }
  assert (Hcommit : calls evs3' = [commit_call]).
  { apply await_cases in H.
    destruct H as [(e & Hc & ->)|(q4 & c4 & evs4 & evs4' & Hc & H & ->)].
    - exact (query_None_calls _ _ _ _ _ Hc).
    - unfold resolve in H. injection H as <- <- <-.
      rewrite calls_app, (query_None_calls _ _ _ _ _ Hc). reflexivity. }
  exists (calls evs3), [].
  rewrite !calls_app, (query_None_calls _ _ _ _ _ Hbegin),
    (query_None_calls _ _ _ _ _ Hdefer), Hcommit, app_nil_r.
  split; [reflexivity|]. split; [now rewrite Hlen|].
  intros _. split; [reflexivity|]. rewrite Hlen. exact (Hend u eq_refl).
Qed.

(** X20.  In every run of [writeRows], however it ends, the calls made are
    a first part of: [begin], the deferral, the upsert statements of the
    first rows in input order, [commit]; the whole of it when [writeRows]
    resolved.  Every call is [begin], the deferral, [commit] or an
    [insert into] statement: there is never a [rollback]. *)
Theorem writeRows_calls_prefix (tableName : string) (rows : list Row)
  (unique : list string) (c c' : Client) (res : Completion unit)
  (evs : list event) :
  writeRows client_query tableName rows unique c = (res, c', evs) ->
  (exists stmts rest,
      (begin_call :: defer_call :: stmts ++ [commit_call])%list
      = (calls evs ++ rest)%list /\
      Forall2 (fun row call =>
                 issued (upsert_statement tableName row unique) call)
        (firstn (List.length stmts) rows) stmts /\
      (res = ok tt -> rest = [] /\ List.length stmts = List.length rows)) /\
  (forall call,
      In call (calls evs) ->
      call = begin_call \/ call = defer_call \/ call = commit_call \/
      exists rest, fst call = "insert into " ++ rest) /\
  ~ In "rollback" (map fst (calls evs)).
Proof.
  intros H.
  destruct (batch_prefix
              (fun row => upsert client_query tableName row unique)
              (fun row call => issued (upsert_statement tableName row unique) call)
              (upsert_resolved_call Client client_query tableName unique)
              (upsert_rejected_calls Client client_query tableName unique)
              rows c res c' evs H)
    as (stmts & rest & Hprefix & Hall & Hend).
  assert (Hkinds : forall call,
             In call (calls evs) ->
             call = begin_call \/ call = defer_call \/ call = commit_call \/
             exists rest0, fst call = "insert into " ++ rest0).
  { intros call Hin.
    assert (Hfull : In call (begin_call :: defer_call :: stmts ++ [commit_call]))
      by (rewrite Hprefix; apply in_or_app; now left).
    destruct Hfull as [<-|[<-|Hfull]]; [now left|now right; left|].
    apply in_app_or in Hfull. destruct Hfull as [Hin'|[<-|[]]];
      [|now right; right; left].
    right; right; right. clear - Hall Hin'.
    induction Hall as [|row call0 rs cs Hissued _ IH]; [contradiction|].
    destruct Hin' as [<-|Hin']; [|now apply IH].
    destruct Hissued as (sql & ps & ps' & Hst & _ & ->).
    exact (upsert_statement_text _ _ _ _ _ Hst). }
  split; [now exists stmts, rest|]. split; [exact Hkinds|].
  intros Hin. apply in_map_iff in Hin. destruct Hin as (call & Htext & Hin).
  destruct (Hkinds call Hin) as [->|[->|[->|(rest0 & Hcall)]]];
    try discriminate.
  rewrite Hcall in Htext. discriminate.
Qed.

(** X21.  In every run of [deleteRows], however it ends, the calls made are
    a first part of: [begin], the deferral, the delete by id of the first
    ids in input order, [commit]; the whole of it when [deleteRows]
    resolved; there is never a [rollback]. *)
Theorem deleteRows_calls_prefix (tableName : string) (ids : list Id)
  (c c' : Client) (res : Completion unit) (evs : list event) :
  deleteRows client_query tableName ids c = (res, c', evs) ->
  (exists k rest,
      k <= List.length ids /\
      (begin_call :: defer_call
       :: map (delete_by_id_call tableName) (firstn k ids) ++ [commit_call])%list
      = (calls evs ++ rest)%list /\
      (res = ok tt -> rest = [] /\ k = List.length ids)) /\
  ~ In "rollback" (map fst (calls evs)).
Proof.
  intros H.
  destruct (batch_prefix
              (fun id => delete client_query tableName [("id", value_of_id id)])
              (fun id call => call = delete_by_id_call tableName id)
              (delete_resolved_call Client client_query tableName)
              (delete_rejected_calls Client client_query tableName)
              ids c res c' evs H)
    as (stmts & rest & Hprefix & Hall & Hend).
  assert (Hstmts :
    stmts = map (delete_by_id_call tableName) (firstn (List.length stmts) ids)).
  { clear - Hall.
    induction Hall as [|id call xs cs -> _ IH]; [reflexivity|].
    cbn [map]. now rewrite <- IH. }
  assert (Hk : List.length stmts <= List.length ids).
  { rewrite <- (Forall2_length Hall), length_firstn. lia. }
  split.
  - exists (List.length stmts), rest. split; [exact Hk|].
    rewrite <- Hstmts. split; [exact Hprefix|].
    exact Hend.
  - intros Hin. apply in_map_iff in Hin. destruct Hin as (call & Htext & Hin).
    assert (Hfull :
      In call (begin_call :: defer_call :: stmts ++ [commit_call]))
      by (rewrite Hprefix; apply in_or_app; now left).
    destruct Hfull as [<-|[<-|Hfull]]; try discriminate.
    apply in_app_or in Hfull. destruct Hfull as [Hin'|[<-|[]]];
      [|discriminate].
    rewrite Hstmts in Hin'. apply in_map_iff in Hin'.
    destruct Hin' as (id & <- & _). discriminate.
Qed.

End BatchRuns.

Section BatchEdges.

Variable Client : Type.
Variable client_query :
  Client -> string -> option (list value) -> Completion QueryResult * Client.

(** X22.  When the client rejects [begin], [writeRows] and [deleteRows]
    reject with its error after that one call: no row or id is looked at,
    nothing else is sent and, unlike an error inside an operation, the error
    is not logged.  When it resolves [begin] and rejects the deferral, the
    same after these two calls. *)
Theorem batch_wrapper_rejected (tableName : string) (rows : list Row)
  (unique : list string) (ids : list Id) (c c1 : Client) (e : exn) :
  (client_query c "begin" None = (throw e, c1) ->
   writeRows client_query tableName rows unique c
   = (throw e, c1, [ClientQuery "begin" None (throw e)]) /\
   deleteRows client_query tableName ids c
   = (throw e, c1, [ClientQuery "begin" None (throw e)])) /\
  (forall q1 c2,
      client_query c "begin" None = (ok q1, c1) ->
      client_query c1 "SET CONSTRAINTS fk_parent DEFERRED" None
      = (throw e, c2) ->
      writeRows client_query tableName rows unique c
      = (throw e, c2,
         [ClientQuery "begin" None (ok q1);
          ClientQuery "SET CONSTRAINTS fk_parent DEFERRED" None (throw e)]) /\
      deleteRows client_query tableName ids c
      = (throw e, c2,
         [ClientQuery "begin" None (ok q1);
          ClientQuery "SET CONSTRAINTS fk_parent DEFERRED" None (throw e)])).
Proof.
  split.
  - intros Hbegin.
    assert (Hq : query client_query "begin" None c
                 = (throw e, c1, [ClientQuery "begin" None (throw e)])).
    { rewrite query_None. unfold client_call. now rewrite Hbegin. }
    unfold writeRows, deleteRows.
    now rewrite !(await_rejected _ _ _ _ _ _ _ Hq).
  - intros q1 c2 Hbegin Hdefer.
    assert (Hq1 : query client_query "begin" None c
                  = (ok q1, c1, [ClientQuery "begin" None (ok q1)])).
    { rewrite query_None. unfold client_call. now rewrite Hbegin. }
    assert (Hq2 : query client_query "SET CONSTRAINTS fk_parent DEFERRED"
                    None c1
                  = (throw e, c2,
                     [ClientQuery "SET CONSTRAINTS fk_parent DEFERRED" None
                        (throw e)])).
    { rewrite query_None. unfold client_call. now rewrite Hdefer. }
    unfold writeRows, deleteRows.
    rewrite !(await_then _ _ _ _ _ _ _ Hq1).
    now rewrite !(await_rejected _ _ _ _ _ _ _ Hq2).
Qed.

(** X23.  With nothing to write or delete the batch is [begin], the
    deferral and [commit] and no more, and the table name is never checked:
    whatever [tableName] is, when the client resolves the three statements
    [writeRows] and [deleteRows] resolve. *)
Theorem batch_of_nothing (tableName : string) (unique : list string)
  (c c1 c2 c3 : Client) (q1 q2 q3 : QueryResult) :
  client_query c "begin" None = (ok q1, c1) ->
  client_query c1 "SET CONSTRAINTS fk_parent DEFERRED" None = (ok q2, c2) ->
  client_query c2 "commit" None = (ok q3, c3) ->
  writeRows client_query tableName [] unique c
  = (ok tt, c3,
     [ClientQuery "begin" None (ok q1);
      ClientQuery "SET CONSTRAINTS fk_parent DEFERRED" None (ok q2);
      ClientQuery "commit" None (ok q3)]) /\
  deleteRows client_query tableName [] c
  = (ok tt, c3,
     [ClientQuery "begin" None (ok q1);
      ClientQuery "SET CONSTRAINTS fk_parent DEFERRED" None (ok q2);
      ClientQuery "commit" None (ok q3)]).
Proof.
  intros H1 H2 H3.
  assert (Hq1 : query client_query "begin" None c
                = (ok q1, c1, [ClientQuery "begin" None (ok q1)])).
  { rewrite query_None. unfold client_call. now rewrite H1. }
  assert (Hq2 : query client_query "SET CONSTRAINTS fk_parent DEFERRED" None c1
                = (ok q2, c2,
                   [ClientQuery "SET CONSTRAINTS fk_parent DEFERRED" None
                      (ok q2)])).
  { rewrite query_None. unfold client_call. now rewrite H2. }
  assert (Hq3 : query client_query "commit" None c2
                = (ok q3, c3, [ClientQuery "commit" None (ok q3)])).
  { rewrite query_None. unfold client_call. now rewrite H3. }
  unfold writeRows, deleteRows. cbn [for_of].
  rewrite !(await_then _ _ _ _ _ _ _ Hq1), !(await_then _ _ _ _ _ _ _ Hq2).
  unfold await at 1 3. unfold resolve at 1 3.
  rewrite !(await_then _ _ _ _ _ _ _ Hq3). unfold resolve.
  split; reflexivity.
Qed.

End BatchEdges.

Lemma writeRows_calls_prefix_witness :
  let e := DriverError "23503" "foreign key violation" in
  let answers := [ok (mkQueryResult []); ok (mkQueryResult []);
                  ok (mkQueryResult []); throw e] in
  let rows := [[("id", VNumber 1)]; [("id", VNumber 2)]; [("id", VNumber 3)]] in
  let evs := snd (writeRows scripted_query "users" rows ["id"] answers) in
  (exists stmts rest,
      (begin_call :: defer_call :: stmts ++ [commit_call])%list
      = (calls evs ++ rest)%list /\
      Forall2 (fun row call => issued (upsert_statement "users" row ["id"]) call)
        (firstn (List.length stmts) rows) stmts /\
      (throw e = ok tt ->
       rest = [] /\ List.length stmts = List.length rows)) /\
  ~ In "rollback" (map fst (calls evs)).
Proof.
  intros e answers rows evs.
  destruct (writeRows_calls_prefix Scripted scripted_query "users" rows ["id"]
              answers [] (throw e) evs eq_refl)
    as (Hprefix & _ & Hrollback).
  split; assumption.
Defined.

Lemma deleteRows_calls_prefix_witness :
  let e := DriverError "23503" "foreign key violation" in
  let answers := [ok (mkQueryResult []); ok (mkQueryResult []); throw e] in
  let ids := [IdNumber 1; IdNumber 2] in
  let evs := snd (deleteRows scripted_query "users" ids answers) in
  (exists k rest,
      k <= List.length ids /\
      (begin_call :: defer_call
       :: map (delete_by_id_call "users") (firstn k ids) ++ [commit_call])%list
      = (calls evs ++ rest)%list /\
      (throw e = ok tt -> rest = [] /\ k = List.length ids)) /\
  ~ In "rollback" (map fst (calls evs)).
Proof.
  intros e answers ids evs.
  apply (deleteRows_calls_prefix Scripted scripted_query "users" ids
           answers [] (throw e) evs eq_refl).
Defined.

Lemma batch_wrapper_rejected_witness :
  let e := DriverError "08006" "connection failure" in
  writeRows scripted_query "users" [[("id", VNumber 1)]] ["id"] [throw e]
  = (throw e, [], [ClientQuery "begin" None (throw e)]) /\
  deleteRows scripted_query "users" [IdNumber 1]
    [ok (mkQueryResult []); throw e]
  = (throw e, [],
     [ClientQuery "begin" None (ok (mkQueryResult []));
      ClientQuery "SET CONSTRAINTS fk_parent DEFERRED" None (throw e)]).
Proof.
  intros e. split.
  - apply (proj1 (batch_wrapper_rejected Scripted scripted_query "users"
                    [[("id", VNumber 1)]] ["id"] [IdNumber 1]
                    [throw e] [] e)).
    reflexivity.
  - apply (proj2 (batch_wrapper_rejected Scripted scripted_query "users"
                    [[("id", VNumber 1)]] ["id"] [IdNumber 1]
                    [ok (mkQueryResult []); throw e] [throw e] e)
             (mkQueryResult []) []); reflexivity.
Defined.

Lemma batch_of_nothing_witness :
  writeRows scripted_query "no such table; --" [] ["id"] []
  = (ok tt, [],
     [ClientQuery "begin" None (ok (mkQueryResult []));
      ClientQuery "SET CONSTRAINTS fk_parent DEFERRED" None
        (ok (mkQueryResult []));
      ClientQuery "commit" None (ok (mkQueryResult []))]) /\
  deleteRows scripted_query "no such table; --" [] []
  = (ok tt, [],
     [ClientQuery "begin" None (ok (mkQueryResult []));
      ClientQuery "SET CONSTRAINTS fk_parent DEFERRED" None
        (ok (mkQueryResult []));
      ClientQuery "commit" None (ok (mkQueryResult []))]).
Proof.
  apply (batch_of_nothing Scripted scripted_query "no such table; --" ["id"]
           [] [] [] [] (mkQueryResult []) (mkQueryResult [])
           (mkQueryResult [])); reflexivity.
Defined.

Lemma writeRows_resolves_witness :
  exists c' evs,
    writeRows counting_query "users"
      [[("id", VNumber 1); ("seen", VDate (mkDate (Some 0%Z)))];
       [("id", VNumber 2); ("seen", VNull)]]
      ["id"] 0
    = (ok tt, c', evs).
Proof.
  apply (writeRows_resolves nat counting_query).
  - intros c sql ps. exists (mkQueryResult []), (S c). reflexivity.
  - reflexivity.
  - repeat constructor.
  - repeat constructor.
Defined.

Lemma deleteRows_resolves_witness :
  exists c' evs,
    deleteRows counting_query "users" [IdNumber 1; IdString "b"] 0
    = (ok tt, c', evs).
Proof.
  apply (deleteRows_resolves nat counting_query).
  - intros c sql ps. exists (mkQueryResult []), (S c). reflexivity.
  - reflexivity.
Defined.

(** ** upsert against create *)

Lemma append_assoc (s t u : string) : (s ++ t) ++ u = s ++ t ++ u.
Proof. induction s as [|c s IH]; simpl; congruence. Qed.

Section UpsertCreate.

Variable Client : Type.
Variable client_query :
  Client -> string -> option (list value) -> Completion QueryResult * Client.

(** X24.  [upsert] is [create] with a conflict clause: on the same table and
    mapping it hands [query2] the text of [create] followed by
    [on conflict (unique) do update set] and the assignments of the mapping,
    with the very same parameters; the clause adds no placeholder of its
    own. *)
Theorem upsert_extends_create (table : string)
  (fields : list (string * value)) (unique : list string) (c : Client) :
  valid_name table = true ->
  names_valid fields ->
  exists sql,
    create client_query table fields c
    = query2 client_query sql (map snd fields) c /\
    upsert client_query table fields unique c
    = query2 client_query
        (sql ++ " on conflict (" ++ join "," unique
         ++ ") do update set " ++ join "," (assignments_from false 1 fields))
        (map snd fields) c /\
    Forall (fun assignment =>
              exists column variable,
                In variable (map placeholder (seq 1 (List.length fields))) /\
                assignment = column ++ " = " ++ variable)
      (assignments_from false 1 fields).
Proof.
  intros Ht Hf. eexists. split; [|split].
  - change (create client_query table fields c)
      with (perform client_query (Create table fields) c).
    rewrite perform_execute. cbn [statement_of].
    rewrite (create_statement_valid table fields Ht Hf). reflexivity.
  - change (upsert client_query table fields unique c)
      with (perform client_query (Upsert table fields unique) c).
    rewrite perform_execute. cbn [statement_of]. unfold upsert_statement.
    rewrite (splitUp_set_valid fields Hf). cbn [cbind ok].
    rewrite (checkName_valid table Ht).
    cbn [cbind ok execute columns variables params assignments].
    unfold Array_toString. f_equal.
    rewrite !append_assoc. reflexivity.
  - rewrite assignments_from_combine. rewrite Forall_forall.
    intros a Hin. apply in_map_iff in Hin.
    destruct Hin as ([column variable] & <- & Hin).
    exists column, variable. split; [|reflexivity].
    now apply in_combine_r in Hin.
Qed.

End UpsertCreate.

Lemma upsert_extends_create_witness :
  exists sql,
    create scripted_query "users" [("id", VNumber 1); ("name", VString "Bob")] []
    = query2 scripted_query sql [VNumber 1; VString "Bob"] [] /\
    upsert scripted_query "users" [("id", VNumber 1); ("name", VString "Bob")]
      ["id"] []
    = query2 scripted_query
        (sql ++ " on conflict (id) do update set " ++ quoted "id" ++ " = $1,"
         ++ quoted "name" ++ " = $2")
        [VNumber 1; VString "Bob"] [].
Proof.
  destruct (upsert_extends_create Scripted scripted_query "users"
              [("id", VNumber 1); ("name", VString "Bob")] ["id"] [])
    as (sql & Hcreate & Hupsert & _).
  - reflexivity.
  - repeat constructor.
  - exists sql. split; [exact Hcreate|exact Hupsert].
Defined.
